(** * The driver of the Mini JavaScript Engine (src/index.js)

  A shallow embedding of [class MiniJSEngine] and of [main]: the two
  flags and the interpreter the engine owns, the [try]/[catch] of [run],
  the exit codes of [runFile] and the line handler of [runPrompt].

  The three stages the driver calls ([./tokenizer], [./parser],
  [./interpreter]) are not among the sources; the driver is verified for
  every implementation of them, so they are parameters of the
  development.  A stage is given no reference to the engine
  ([new Tokenizer(source)], [new Parser(tokens)], [new Interpreter()]),
  hence it can write to the console, return or throw, and (for the
  interpreter) change its own state, but it cannot touch [hadError] or
  [hadRuntimeError].  A call of a stage is taken to end, by returning
  or by throwing.

  The driver is embedded twice.  [Module Any] lets a stage throw any
  value: the two [catch] blocks read [error.message], which throws in
  its turn when the caught value is [null] or [undefined], and the
  assignments to the two flags are among the events.  What [run]
  catches, what it propagates and how the process ends are verified
  there.  [Section Driver] takes stages that throw [Error] objects,
  values with a [message], as the diagnostics of the stages are; the
  order of the stage calls, the echo, the REPL session and the state of
  the interpreter are verified there.  On such stages the two
  embeddings agree ([lifted_driver_agrees]).

  A string is the UTF-8 encoding of its text. *)

From Stdlib Require Import String Ascii List Bool ZArith Lia.
From Stdlib Require Import SpecFloat.
From stdpp Require Import base option list strings gmap.

(** ** Host values *)

Module JS.

(** The values of the host language, one constructor per ECMAScript
    language type.  A number is an IEEE 754 datum; symbols and objects
    (functions and arrays included) are known by their identity. *)
Inductive value : Type :=
| Undefined
| Null
| Boolean (b : bool)
| Number (x : spec_float)
| BigInt (n : Z)
| Str (s : string)
| Symbol (id : nat)
| Object (ref : nat).

(** [ToBoolean], the test that [result && ...] applies to [result]. *)
Definition ToBoolean (v : value) : bool :=
  match v with
  | Undefined | Null => false
  | Boolean b => b
  | Number (S754_zero _) | Number S754_nan => false
  | Number _ => true
  | BigInt n => negb (n =? 0)%Z
  | Str EmptyString => false
  | Str _ => true
  | Symbol _ | Object _ => true
  end.

(** What a stage throws: an [Error] object, of which the driver reads
    the [message] only. *)
Record exn : Type := Error { message : string }.

(** A string is the UTF-8 encoding of its text.  The code points that
    [trim] strips, the WhiteSpace and LineTerminator of ECMAScript, each
    by its bytes: U+0009 to U+000D, U+0020, U+00A0, U+1680, U+2000 to
    U+200A, U+2028, U+2029, U+202F, U+205F, U+3000 and U+FEFF. *)
Definition white_space : list (list ascii) :=
  map (map ascii_of_nat)
    [[9]; [10]; [11]; [12]; [13]; [32]; [194; 160]; [225; 154; 128];
     [226; 128; 128]; [226; 128; 129]; [226; 128; 130]; [226; 128; 131];
     [226; 128; 132]; [226; 128; 133]; [226; 128; 134]; [226; 128; 135];
     [226; 128; 136]; [226; 128; 137]; [226; 128; 138];
     [226; 128; 168]; [226; 128; 169]; [226; 128; 175]; [226; 129; 159];
     [227; 128; 128]; [239; 187; 191]].

(** What is left of [s] after the prefix [p], if [s] begins with [p]. *)
Fixpoint strip_prefix (p s : list ascii) : option (list ascii) :=
  match p with
  | [] => Some s
  | a :: p' =>
      match s with
      | b :: s' => if Ascii.eqb a b then strip_prefix p' s' else None
      | [] => None
      end
  end.

(** [s] without the first of the [patterns] it begins with. *)
Fixpoint strip_first (patterns : list (list ascii)) (s : list ascii) : option (list ascii) :=
  match patterns with
  | [] => None
  | p :: rest =>
      match strip_prefix p s with
      | Some remainder => Some remainder
      | None => strip_first rest s
      end
  end.

(** [s] without the patterns it begins with, one after the other. *)
Fixpoint strip_all (patterns : list (list ascii)) (fuel : nat) (s : list ascii) : list ascii :=
  match fuel with
  | O => s
  | S fuel' =>
      match strip_first patterns s with
      | Some remainder => strip_all patterns fuel' remainder
      | None => s
      end
  end.

Definition trimStart (s : string) : string :=
  let bytes := list_ascii_of_string s in
  string_of_list_ascii (strip_all white_space (List.length bytes) bytes).

Definition trimEnd (s : string) : string :=
  let bytes := list_ascii_of_string s in
  string_of_list_ascii
    (rev (strip_all (map (@rev ascii) white_space) (List.length bytes) (rev bytes))).

(** [String.prototype.trim]. *)
Definition trim (s : string) : string := trimEnd (trimStart s).

(** A string made of white space only. *)
Definition white_space_run (s : string) : Prop :=
  exists parts, Forall (fun p => In p white_space) parts /\ list_ascii_of_string s = concat parts.

End JS.

Import JS.

(** ** What a stage does when it is called *)

(** The lines a stage writes to the console while it runs, and how it
  ends: it throws ([inl]) or returns a result ([inr]). *)
Record behaviour (A : Type) : Type := Behaviour {
written : list string;
ending : exn + A
}.
Arguments Behaviour {A} _ _.
Arguments written {A} _.
Arguments ending {A} _.

(** A stage reports an error when it writes a diagnostic or throws. *)
Definition reports_error {A} (b : behaviour A) : bool :=
match written b, ending b with
| [], inr _ => false
| _, _ => true
end.

(** The test of the line listener of the REPL:
    [line.trim() === 'exit' || line.trim() === 'quit']. *)
Definition is_exit_command (line : string) : bool :=
  String.eqb (trim line) "exit" || String.eqb (trim line) "quit".

(** ** A small instance of the three stages *)

Module Sample.

(** Modelled from the spec: tokenizer.js, parser.js and interpreter.js
    are not among the sources.  This instance covers one-statement
    programs, [var NAME = ATOM] and [ATOM], with the behaviour the
    specification gives the stages: the tokenizer reports an
    unrecognised character and scans on, the parser reports a statement
    it cannot read and drops it, a declaration binds its name in the
    global environment, and reading an undeclared name is a run-time
    error that is thrown up to the caller of [interpret]. *)
Inductive atom : Type :=
| Literal (v : value)
| Identifier (name : string).

Inductive statement : Type :=
| VarDeclaration (name : string) (init : atom)
| ExpressionStatement (a : atom).

Definition unrecognised (lexeme : string) : bool :=
  String.eqb lexeme "@" || String.eqb lexeme "#".

(** Modelled from the spec: a token is a lexeme; an unrecognised
    character is reported and skipped, and the scan never throws. *)
Definition tokenize (source : string) : behaviour (list string) :=
  let lexemes := String.words source in
  Behaviour
    (map (fun _ => "[line 1] Error : Unexpected character.") (filter (fun l => unrecognised l = true) lexemes))
    (inr (filter (fun l => unrecognised l = false) lexemes)).

Definition read_atom (lexeme : string) : atom :=
  match lexeme with
  | "true" => Literal (Boolean true)
  | "false" => Literal (Boolean false)
  | "null" => Literal Null
  | String "'" text => Literal (Str text)
  | _ => Identifier lexeme
  end.

(** Modelled from the spec: a statement that violates the grammar is
    reported and discarded, and the parser returns the statements it
    could read. *)
Definition parse (tokens : list string) : behaviour (list statement) :=
  match tokens with
  | [] => Behaviour [] (inr [])
  | ["var"; name; "="; init] => Behaviour [] (inr [VarDeclaration name (read_atom init)])
  | [lexeme] => Behaviour [] (inr [ExpressionStatement (read_atom lexeme)])
  | _ => Behaviour ["[line 1] Error : Expect expression."] (inr [])
  end.

(** The token sequences of the statements of a program, which [;]
    closes. *)
Fixpoint split_statements (current tokens : list string) : list (list string) :=
  match tokens with
  | [] => match current with [] => [] | _ => [rev current] end
  | ";" :: rest => rev current :: split_statements [] rest
  | lexeme :: rest => split_statements (lexeme :: current) rest
  end.

(** Modelled from the spec: the parser of programs of several statements.
    A statement that violates the grammar is reported, its tokens up to
    the next [;] are discarded and the parser reads on, so that it
    returns the statements it could read. *)
Definition parse_program (tokens : list string) : behaviour (list statement) :=
  let parts := map parse (split_statements [] tokens) in
  Behaviour
    (concat (map written parts))
    (inr (concat (map (fun part => match ending part with inr read => read | inl _ => [] end)
                    parts))).

(** A parser that throws at the first statement it cannot read instead
    of reporting it, the case the [catch] of the driver provides for. *)
Definition strict_parse (tokens : list string) : behaviour (list statement) :=
  match parse tokens with
  | Behaviour (diagnostic :: _) _ => Behaviour [] (inl (Error diagnostic))
  | read => read
  end.

Definition evaluate (globals : gmap string value) (a : atom) : exn + value :=
  match a with
  | Literal v => inr v
  | Identifier name =>
      match globals !! name with
      | Some v => inr v
      | None => inl (Error ("Undefined variable '" +:+ name +:+ "'."))
      end
  end.

(** Modelled from the spec: [interpret] returns the value of the last
    expression statement; the state of the interpreter is its global
    environment. *)
Fixpoint interpret_from (last : value) (globals : gmap string value) (statements : list statement)
    : gmap string value * behaviour value :=
  match statements with
  | [] => (globals, Behaviour [] (inr last))
  | VarDeclaration name init :: rest =>
      match evaluate globals init with
      | inl e => (globals, Behaviour [] (inl e))
      | inr v => interpret_from last (<[name := v]> globals) rest
      end
  | ExpressionStatement a :: rest =>
      match evaluate globals a with
      | inl e => (globals, Behaviour [] (inl e))
      | inr v => interpret_from v globals rest
      end
  end.

Definition interpret (globals : gmap string value) (statements : list statement)
    : gmap string value * behaviour value :=
  interpret_from Undefined globals statements.

Definition newInterpreter : gmap string value := ∅.

(** Modelled from the spec: a name is visible when the global
    environment binds it. *)
Definition declared (name : string) (globals : gmap string value) : Prop :=
  is_Some (globals !! name).

(** How the console shows the values of this instance. *)
Definition inspect (v : value) : string :=
  match v with
  | Boolean true => "true"
  | Boolean false => "false"
  | Null => "null"
  | Str s => s
  | _ => "undefined"
  end.

(** A file system with one script, which reads a name nobody declared. *)
Definition readFileSync (path : string) : exn + string :=
  if String.eqb path "script.js" then inr "y"
  else inl (Error ("ENOENT: no such file or directory, open '" +:+ path +:+ "'")).

Definition file_argv : list string := ["node"; "src/index.js"; "script.js"].
Definition repl_argv : list string := ["node"; "src/index.js"].

End Sample.

(** ** The driver, whatever the stages throw *)

(** The same driver once more, without the assumption that a stage throws
    [Error] objects, and with the assignments to the two flags among the
    events.  In JavaScript any value can be thrown, and both [catch]
    blocks of the driver read [error.message]. *)
Module Any.

(** A thrown value, as a [catch] block of the driver sees it: the
    template [${error.message}] gives a text, or reading or rendering the
    message throws in its turn. *)
Inductive thrown : Type :=
| Readable (text : string)
| Unreadable (raised : thrown).

(** An [Error] object. *)
Definition thrown_error (e : exn) : thrown := Readable (message e).

(** The [TypeError] of reading a property of [null] or [undefined]. *)
Definition TypeError_of_null : thrown :=
  Readable "Cannot read properties of null (reading 'message')".
Definition TypeError_of_undefined : thrown :=
  Readable "Cannot read properties of undefined (reading 'message')".

(** A thrown value that has no [message] of its own: the property of
    [null] and of [undefined] cannot be read, that of any other such
    value is [undefined]. *)
Definition thrown_plain (v : value) : thrown :=
  match v with
  | Null => Unreadable TypeError_of_null
  | Undefined => Unreadable TypeError_of_undefined
  | _ => Readable "undefined"
  end.

(** What a stage does when it is called: the lines it writes, and what it
    throws ([inl]) or returns ([inr]). *)
Record conduct (A : Type) : Type := Conduct {
  wrote : list string;
  ended : thrown + A
}.
Arguments Conduct {A} _ _.
Arguments wrote {A} _.
Arguments ended {A} _.

(** A stage that throws [Error] objects only. *)
Definition lift {A} (b : behaviour A) : conduct A :=
  Conduct (written b)
    (match ending b with
     | inl e => inl (thrown_error e)
     | inr a => inr a
     end).

Definition lift_interpret {IState Program : Type}
    (interpret : IState -> Program -> IState * behaviour value)
    (st : IState) (statements : Program) : IState * conduct value :=
  (fst (interpret st statements), lift (snd (interpret st statements))).

Section Driver.

Variables Tokens Program IState : Type.
Variable tokenize : string -> conduct Tokens.
Variable parse : Tokens -> conduct Program.
Variable interpret : IState -> Program -> IState * conduct value.
Variable newInterpreter : IState.
Variable inspect : value -> string.
(** [fs.readFileSync(path, 'utf8')], which throws [Error] objects. *)
Variable readFileSync : string -> exn + string.
Variable argv : list string.

Record MiniJSEngine : Type := Engine {
  interpreter : IState;
  hadError : bool;
  hadRuntimeError : bool
}.

Inductive field : Type := HadError | HadRuntimeError.

Inductive event : Type :=
| Construct                                  (* new Interpreter() *)
| Tokenize (source : string)                 (* tokenizer.tokenize() *)
| Parse (tokens : Tokens)                    (* parser.parse() *)
| Interpret (st : IState) (statements : Program)
| StageOutput (text : string)                (* a line written by a stage *)
| ConsoleLog (text : string)                 (* console.log of the driver *)
| ConsoleError (text : string)               (* console.error of the driver *)
| Prompt                                     (* rl.prompt() *)
| Assign (flag : field) (value : bool).      (* this.hadError = value, this.hadRuntimeError = value *)

Inductive completion (A : Type) : Type :=
| Normal (a : A)
| Throw (error : thrown)
| Exit (code : Z).
Arguments Normal {A} _.
Arguments Throw {A} _.
Arguments Exit {A} _.

Record result (A : Type) : Type := Result {
  outcome : completion A;
  engine : MiniJSEngine;
  events : list event
}.
Arguments Result {A} _ _ _.
Arguments outcome {A} _.
Arguments engine {A} _.
Arguments events {A} _.

Definition Driver (A : Type) : Type := MiniJSEngine -> result A.

Definition ret {A} (a : A) : Driver A := fun this => Result (Normal a) this [].

Definition bind {A B} (m : Driver A) (k : A -> Driver B) : Driver B :=
  fun this =>
    let r := m this in
    match outcome r with
    | Normal a =>
        let r' := k a (engine r) in
        Result (outcome r') (engine r') (events r ++ events r')
    | Throw error => Result (Throw error) (engine r) (events r)
    | Exit code => Result (Exit code) (engine r) (events r)
    end.

#[local] Instance driver_ret : MRet Driver := @ret.
#[local] Instance driver_bind : MBind Driver := fun A B k m => bind m k.

(** [try { body } catch (error) { handler }]: the handler can throw. *)
Definition try_catch {A} (body : Driver A) (handler : thrown -> Driver A) : Driver A :=
  fun this =>
    let r := body this in
    match outcome r with
    | Throw error =>
        let r' := handler error (engine r) in
        Result (outcome r') (engine r') (events r ++ events r')
    | _ => r
    end.

Definition throw {A} (error : thrown) : Driver A := fun this => Result (Throw error) this [].
Definition process_exit {A} (code : Z) : Driver A := fun this => Result (Exit code) this [].
Definition emit (evs : list event) : Driver unit := fun this => Result (Normal tt) this evs.
Definition console_log (text : string) : Driver unit := emit [ConsoleLog text].
Definition console_error (text : string) : Driver unit := emit [ConsoleError text].

Definition get_hadError : Driver bool := fun this => Result (Normal (hadError this)) this [].
Definition get_hadRuntimeError : Driver bool :=
  fun this => Result (Normal (hadRuntimeError this)) this [].
Definition set_hadError (b : bool) : Driver unit :=
  fun this =>
    Result (Normal tt) (Engine (interpreter this) b (hadRuntimeError this)) [Assign HadError b].
Definition set_hadRuntimeError (b : bool) : Driver unit :=
  fun this =>
    Result (Normal tt) (Engine (interpreter this) (hadError this) b) [Assign HadRuntimeError b].

Definition finish {A} (b : conduct A) : Driver A :=
  emit (map StageOutput (wrote b));;
  match ended b with
  | inl error => throw error
  | inr a => ret a
  end.

Definition call_tokenize (source : string) : Driver Tokens :=
  emit [Tokenize source];; finish (tokenize source).

Definition call_parse (tokens : Tokens) : Driver Program :=
  emit [Parse tokens];; finish (parse tokens).

Definition call_interpret (statements : Program) : Driver value :=
  fun this =>
    let (st, b) := interpret (interpreter this) statements in
    let r := finish b (Engine st (hadError this) (hadRuntimeError this)) in
    Result (outcome r) (engine r) (Interpret (interpreter this) statements :: events r).

(** The [try] block of [run]. *)
Definition run_try (source : string) : Driver unit :=
  tokens ← call_tokenize source;
  statements ← call_parse tokens;
  syntax_error ← get_hadError;
  if syntax_error : bool then ret tt
  else
    result ← call_interpret statements;
    if ToBoolean result && (List.length argv <=? 2)%nat then console_log (inspect result)
    else ret tt.

(** The [catch] block of [run]: the template is evaluated first, and
    what it throws leaves the block. *)
Definition run_catch (error : thrown) : Driver unit :=
  match error with
  | Readable text =>
      console_error ("Error: " +:+ text);;
      set_hadError true
  | Unreadable raised => throw raised
  end.

(** [run(source)] *)
Definition run (source : string) : Driver unit :=
  try_catch (run_try source) run_catch.

(** [runtimeError(error)] and [report(line, where, message)], with the
    text already rendered. *)
Definition runtimeError (text : string) : Driver unit :=
  console_error ("Runtime Error: " +:+ text);;
  set_hadRuntimeError true.

Definition report (line where_ message : string) : Driver unit :=
  console_error ("[line " +:+ line +:+ "] Error " +:+ where_ +:+ ": " +:+ message);;
  set_hadError true.

Definition read_file (path : string) : Driver string :=
  match readFileSync path with
  | inl e => throw (thrown_error e)
  | inr source => ret source
  end.

(** [runFile(path)] *)
Definition runFile (path : string) : Driver unit :=
  try_catch
    (source ← read_file path;
     run source;;
     syntax_error ← get_hadError;
     (if syntax_error : bool then process_exit 65 else ret tt);;
     runtime_error ← get_hadRuntimeError;
     if runtime_error : bool then process_exit 70 else ret tt)
    (fun error =>
       match error with
       | Readable text =>
           console_error ("Error reading file: " +:+ text);;
           process_exit 1
       | Unreadable raised => throw raised
       end).

Definition on_close : Driver unit :=
  console_log "Goodbye!";;
  process_exit 0.

(** The listener of ['line']; what [run] throws leaves the listener. *)
Definition on_line (line : string) : Driver unit :=
  if is_exit_command line then on_close
  else
    run line;;
    set_hadError false;;
    set_hadRuntimeError false;;
    emit [Prompt].

Fixpoint read_lines (stdin : list string) : Driver unit :=
  match stdin with
  | [] => on_close
  | line :: rest => on_line line;; read_lines rest
  end.

Fixpoint on_lines (lines : list string) : Driver unit :=
  match lines with
  | [] => ret tt
  | line :: rest => on_line line;; on_lines rest
  end.

Definition runPrompt (stdin : list string) : Driver unit :=
  emit [Prompt];;
  read_lines stdin.

(** The engine as [constructor()] leaves it. *)
Definition new_MiniJSEngine : MiniJSEngine := Engine newInterpreter false false.

Definition main_body (stdin : list string) : Driver unit :=
  if (3 <? List.length argv)%nat then
    console_log "Usage: node src/index.js [script]";;
    process_exit 64
  else if (List.length argv =? 3)%nat then
    runFile (default EmptyString (argv !! 2%nat))
  else
    console_log "Mini JavaScript Engine - REPL Mode";;
    console_log ("Type " +:+ String (ascii_of_nat 34) "exit" +:+ String (ascii_of_nat 34) " or "
                 +:+ String (ascii_of_nat 34) "quit" +:+ String (ascii_of_nat 34) " to exit");;
    runPrompt stdin.

(** [main()]: the constructor makes the interpreter and assigns the two
    flags, then the body runs. *)
Definition main (stdin : list string) : result unit :=
  let r := main_body stdin new_MiniJSEngine in
  Result (outcome r) (engine r)
    (Construct :: Assign HadError false :: Assign HadRuntimeError false :: events r).

(** The code the process ends with; an exception nobody catches ends it
    with code 1. *)
Definition exit_code {A} (r : result A) : Z :=
  match outcome r with
  | Normal _ => 0
  | Throw _ => 1
  | Exit code => code
  end.

(** *** What the properties read off the events *)

Definition reported (evs : list event) : list string :=
  omap (fun ev => match ev with ConsoleError text => Some text | _ => None end) evs.

(** The values assigned to [hadRuntimeError]. *)
Definition assigned_hadRuntimeError (evs : list event) : list bool :=
  omap (fun ev => match ev with Assign HadRuntimeError b => Some b | _ => None end) evs.

(** Whether a piece of driver code ended by throwing a value with a
    message that can be read. *)
Definition throws_readable {A} (r : result A) : bool :=
  match outcome r with
  | Throw (Readable _) => true
  | _ => false
  end.

(** No stage ever throws a value whose message cannot be read. *)
Definition readable_stages : Prop :=
  (forall source raised, ended (tokenize source) <> inl (Unreadable raised))
  /\ (forall tokens raised, ended (parse tokens) <> inl (Unreadable raised))
  /\ (forall st statements raised,
        ended (snd (interpret st statements)) <> inl (Unreadable raised)).

(** C6 as it is stated: whatever a stage throws, [run] completes. *)
Definition run_never_propagates : Prop :=
  forall (this : MiniJSEngine) (source : string), outcome (run source this) = Normal tt.

(** The first clause of C8 as it is stated: every exception that reaches
    the [catch] block of [run] raises [hadError]. *)
Definition every_caught_exception_raises_hadError : Prop :=
  forall (this : MiniJSEngine) (source : string) (error : thrown),
    outcome (run_try source this) = Throw error ->
    hadError (engine (run source this)) = true.

(** The second clause of C8 as it is stated: nothing in the driver
    assigns [hadRuntimeError]. *)
Definition nothing_assigns_hadRuntimeError : Prop :=
  forall stdin : list string, assigned_hadRuntimeError (events (main stdin)) = [].

(** A piece of driver code touches no flag, reports nothing and does not
    leave the process. *)
Definition touches_no_flag {A} (m : Driver A) : Prop :=
  forall this : MiniJSEngine,
    hadError (engine (m this)) = hadError this
    /\ hadRuntimeError (engine (m this)) = hadRuntimeError this
    /\ reported (events (m this)) = []
    /\ assigned_hadRuntimeError (events (m this)) = []
    /\ forall code, outcome (m this) <> Exit code.

(** A piece of driver code throws nothing whose message cannot be read. *)
Definition throws_nothing_unreadable {A} (m : Driver A) : Prop :=
  forall (this : MiniJSEngine) (raised : thrown), outcome (m this) <> Throw (Unreadable raised).

(** A piece of driver code keeps [hadRuntimeError] down: it assigns
    nothing but [false] to it and, if it finds it down, leaves it down
    and does not end the process with code 70. *)
Definition keeps_hadRuntimeError_down {A} (m : Driver A) : Prop :=
  forall this : MiniJSEngine,
    Forall (fun b => b = false) (assigned_hadRuntimeError (events (m this)))
    /\ (hadRuntimeError this = false ->
        hadRuntimeError (engine (m this)) = false /\ outcome (m this) <> Exit 70).

End Driver.

Arguments Engine {IState} _ _ _.
Arguments interpreter {IState} _.
Arguments hadError {IState} _.
Arguments hadRuntimeError {IState} _.
Arguments Normal {A} _.
Arguments Throw {A} _.
Arguments Exit {A} _.
Arguments Result {Tokens Program IState A} _ _ _.
Arguments outcome {Tokens Program IState A} _.
Arguments engine {Tokens Program IState A} _.
Arguments events {Tokens Program IState A} _.
Arguments exit_code {Tokens Program IState A} _.
Arguments throws_readable {Tokens Program IState A} _.
Arguments new_MiniJSEngine {IState} _.
Arguments run_try {Tokens Program IState} _ _ _ _ _ _ _.
Arguments run {Tokens Program IState} _ _ _ _ _ _ _.
Arguments runFile {Tokens Program IState} _ _ _ _ _ _ _ _.
Arguments on_line {Tokens Program IState} _ _ _ _ _ _ _.
Arguments on_lines {Tokens Program IState} _ _ _ _ _ _ _.
Arguments read_lines {Tokens Program IState} _ _ _ _ _ _ _.
Arguments runPrompt {Tokens Program IState} _ _ _ _ _ _ _.
Arguments main_body {Tokens Program IState} _ _ _ _ _ _ _ _.
Arguments main {Tokens Program IState} _ _ _ _ _ _ _ _.
Arguments reported {Tokens Program IState} _.
Arguments assigned_hadRuntimeError {Tokens Program IState} _.
Arguments readable_stages {Tokens Program IState} _ _ _.
Arguments run_never_propagates {Tokens Program IState} _ _ _ _ _.
Arguments every_caught_exception_raises_hadError {Tokens Program IState} _ _ _ _ _.
Arguments nothing_assigns_hadRuntimeError {Tokens Program IState} _ _ _ _ _ _ _.
Arguments keeps_hadRuntimeError_down {Tokens Program IState A} _.
Arguments touches_no_flag {Tokens Program IState A} _.
Arguments throws_nothing_unreadable {Tokens Program IState A} _.
Arguments ConsoleLog {Tokens Program IState} _.
Arguments ConsoleError {Tokens Program IState} _.
Arguments Assign {Tokens Program IState} _ _.

(** *** An interpreter that throws values as they are *)

(** The statements of the sample, and [throw ATOM], which throws the
    value of the atom, whatever it is.  The stages are parameters of
    the driver, and nothing in the driver keeps a stage from throwing a
    value that is no [Error] object; this instance is one through which
    such a value reaches [run]. *)
Inductive statement : Type :=
| Plain (s : Sample.statement)
| ThrowStatement (a : Sample.atom).

Definition sample_tokenize (source : string) : conduct (list string) :=
  lift (Sample.tokenize source).

Definition sample_parse (tokens : list string) : conduct (list statement) :=
  match tokens with
  | ["throw"; lexeme] => Conduct [] (inr [ThrowStatement (Sample.read_atom lexeme)])
  | _ =>
      Conduct (written (Sample.parse tokens))
        (match ending (Sample.parse tokens) with
         | inl e => inl (thrown_error e)
         | inr read => inr (map Plain read)
         end)
  end.

Fixpoint sample_interpret_from (last : value) (globals : gmap string value)
    (statements : list statement) : gmap string value * conduct value :=
  match statements with
  | [] => (globals, Conduct [] (inr last))
  | Plain s :: rest =>
      let (globals', b) := Sample.interpret_from last globals [s] in
      match ending b with
      | inl e => (globals', Conduct (written b) (inl (thrown_error e)))
      | inr v => sample_interpret_from v globals' rest
      end
  | ThrowStatement a :: rest =>
      match Sample.evaluate globals a with
      | inl e => (globals, Conduct [] (inl (thrown_error e)))
      | inr v => (globals, Conduct [] (inl (thrown_plain v)))
      end
  end.

Definition sample_interpret (globals : gmap string value) (statements : list statement)
    : gmap string value * conduct value :=
  sample_interpret_from Undefined globals statements.

(** The file system of the sample with one more script, which throws
    [null]. *)
Definition sample_readFileSync (path : string) : exn + string :=
  if String.eqb path "null.js" then inr "throw null" else Sample.readFileSync path.

Definition null_argv : list string := ["node"; "src/index.js"; "null.js"].

End Any.

(** ** The driver on stages that throw [Error] objects *)

Set Default Proof Using "Type".

Section Driver.

(** The types and the code of the three stages. *)
Variables Tokens Program IState : Type.
Variable tokenize : string -> behaviour Tokens.
Variable parse : Tokens -> behaviour Program.
Variable interpret : IState -> Program -> IState * behaviour value.
(** The state of a fresh [new Interpreter()]. *)
Variable newInterpreter : IState.
(** How [console.log] renders a value. *)
Variable inspect : value -> string.
(** [fs.readFileSync(path, 'utf8')]. *)
Variable readFileSync : string -> exn + string.
(** [process.argv]. *)
Variable argv : list string.
(** How a template literal renders a number (Number::toString). *)
Variable Number_toString : spec_float -> string.

(** The fields of [MiniJSEngine]. *)
Record MiniJSEngine : Type := Engine {
  interpreter : IState;
  hadError : bool;
  hadRuntimeError : bool
}.

(** What the process does that can be observed from outside or that the
    properties below speak of. *)
Inductive event : Type :=
| Construct                                  (* new Interpreter() *)
| Tokenize (source : string)                 (* tokenizer.tokenize() *)
| Parse (tokens : Tokens)                    (* parser.parse() *)
| Interpret (st : IState) (statements : Program)
                                             (* this.interpreter.interpret(statements),
                                                with the interpreter as it is entered *)
| StageOutput (text : string)                (* a line written by a stage *)
| ConsoleLog (text : string)                 (* console.log of the driver *)
| ConsoleError (text : string)               (* console.error of the driver *)
| Prompt.                                    (* rl.prompt() *)

(** How a piece of driver code ends. *)
Inductive completion (A : Type) : Type :=
| Normal (a : A)
| Throw (e : exn)
| Exit (code : Z).                           (* process.exit(code) *)
Arguments Normal {A} _.
Arguments Throw {A} _.
Arguments Exit {A} _.

Record result (A : Type) : Type := Result {
  outcome : completion A;
  engine : MiniJSEngine;
  events : list event
}.
Arguments Result {A} _ _ _.
Arguments outcome {A} _.
Arguments engine {A} _.
Arguments events {A} _.

Definition Driver (A : Type) : Type := MiniJSEngine -> result A.

Definition ret {A} (a : A) : Driver A := fun this => Result (Normal a) this [].

Definition bind {A B} (m : Driver A) (k : A -> Driver B) : Driver B :=
  fun this =>
    let r := m this in
    match outcome r with
    | Normal a =>
        let r' := k a (engine r) in
        Result (outcome r') (engine r') (events r ++ events r')
    | Throw e => Result (Throw e) (engine r) (events r)
    | Exit code => Result (Exit code) (engine r) (events r)
    end.

#[local] Instance driver_ret : MRet Driver := @ret.
#[local] Instance driver_bind : MBind Driver := fun A B k m => bind m k.

(** [try { body } catch (error) { handler }] *)
Definition try_catch {A} (body : Driver A) (handler : exn -> Driver A) : Driver A :=
  fun this =>
    let r := body this in
    match outcome r with
    | Throw e =>
        let r' := handler e (engine r) in
        Result (outcome r') (engine r') (events r ++ events r')
    | _ => r
    end.

Definition throw {A} (e : exn) : Driver A := fun this => Result (Throw e) this [].
Definition process_exit {A} (code : Z) : Driver A := fun this => Result (Exit code) this [].
Definition emit (evs : list event) : Driver unit := fun this => Result (Normal tt) this evs.
Definition console_log (text : string) : Driver unit := emit [ConsoleLog text].
Definition console_error (text : string) : Driver unit := emit [ConsoleError text].

Definition get_hadError : Driver bool := fun this => Result (Normal (hadError this)) this [].
Definition get_hadRuntimeError : Driver bool :=
  fun this => Result (Normal (hadRuntimeError this)) this [].
Definition set_hadError (b : bool) : Driver unit :=
  fun this => Result (Normal tt) (Engine (interpreter this) b (hadRuntimeError this)) [].
Definition set_hadRuntimeError (b : bool) : Driver unit :=
  fun this => Result (Normal tt) (Engine (interpreter this) (hadError this) b) [].

(** The end of a stage, as the driver sees it. *)
Definition finish {A} (b : behaviour A) : Driver A :=
  emit (map StageOutput (written b));;
  match ending b with
  | inl e => throw e
  | inr a => ret a
  end.

(** [new Tokenizer(source).tokenize()] *)
Definition call_tokenize (source : string) : Driver Tokens :=
  emit [Tokenize source];; finish (tokenize source).

(** [new Parser(tokens).parse()] *)
Definition call_parse (tokens : Tokens) : Driver Program :=
  emit [Parse tokens];; finish (parse tokens).

(** [this.interpreter.interpret(statements)]: the one interpreter of the
    engine is entered as the previous call left it, and keeps what this
    call does to it, also when the call throws. *)
Definition call_interpret (statements : Program) : Driver value :=
  fun this =>
    let (st, b) := interpret (interpreter this) statements in
    let r := finish b (Engine st (hadError this) (hadRuntimeError this)) in
    Result (outcome r) (engine r) (Interpret (interpreter this) statements :: events r).

(** ** The methods of [MiniJSEngine] *)

(** The first two stages of [run]: tokenization and parsing. *)
Definition front (source : string) : Driver Program :=
  tokens ← call_tokenize source;
  call_parse tokens.

(** The [try] block of [run]. *)
Definition run_try (source : string) : Driver unit :=
  statements ← front source;
  syntax_error ← get_hadError;
  if syntax_error : bool then ret tt
  else
    result ← call_interpret statements;
    if ToBoolean result && (List.length argv <=? 2)%nat then console_log (inspect result)
    else ret tt.

(** The [catch] block of [run]. *)
Definition run_catch (error : exn) : Driver unit :=
  console_error ("Error: " +:+ message error);;
  set_hadError true.

(** [run(source)] *)
Definition run (source : string) : Driver unit :=
  try_catch (run_try source) run_catch.

(** [error(line, message)], [runtimeError(error)] and
    [report(line, where, message)]: the reporting methods of the engine,
    for a line number that is a number and texts that are strings.
    Nothing in the driver calls them, and no stage is handed the engine. *)
Definition report (line : spec_float) (where_ message : string) : Driver unit :=
  console_error ("[line " +:+ Number_toString line +:+ "] Error " +:+ where_ +:+ ": "
                 +:+ message);;
  set_hadError true.

Definition error (line : spec_float) (message : string) : Driver unit :=
  report line EmptyString message.

Definition runtimeError (error : exn) : Driver unit :=
  console_error ("Runtime Error: " +:+ message error);;
  set_hadRuntimeError true.

(** [fs.readFileSync(path, 'utf8')] inside a [try]. *)
Definition read_file (path : string) : Driver string :=
  match readFileSync path with
  | inl e => throw e
  | inr source => ret source
  end.

(** [runFile(path)] *)
Definition runFile (path : string) : Driver unit :=
  try_catch
    (source ← read_file path;
     run source;;
     syntax_error ← get_hadError;
     (if syntax_error : bool then process_exit 65 else ret tt);;
     runtime_error ← get_hadRuntimeError;
     if runtime_error : bool then process_exit 70 else ret tt)
    (fun error =>
       console_error ("Error reading file: " +:+ message error);;
       process_exit 1).

(** The listener of ['close']. *)
Definition on_close : Driver unit :=
  console_log "Goodbye!";;
  process_exit 0.

(** The listener of ['line']; [rl.close()] runs the listener of
    ['close'] at once. *)
Definition on_line (line : string) : Driver unit :=
  if is_exit_command line then on_close
  else
    run line;;
    set_hadError false;;
    set_hadRuntimeError false;;
    emit [Prompt].

(** The lines of the standard input arrive one by one; at the end of
    the input the interface closes. *)
Fixpoint read_lines (stdin : list string) : Driver unit :=
  match stdin with
  | [] => on_close
  | line :: rest => on_line line;; read_lines rest
  end.

(** The listener of ['line'] on the first lines of the input. *)
Fixpoint on_lines (lines : list string) : Driver unit :=
  match lines with
  | [] => ret tt
  | line :: rest => on_line line;; on_lines rest
  end.

(** [runPrompt()], with the lines the standard input will deliver. *)
Definition runPrompt (stdin : list string) : Driver unit :=
  emit [Prompt];;
  read_lines stdin.

(** [constructor()] *)
Definition new_MiniJSEngine : MiniJSEngine := Engine newInterpreter false false.

Definition double_quote : string := String (ascii_of_nat 34) EmptyString.

(** [main()], run on the engine it has just made. *)
Definition main_body (stdin : list string) : Driver unit :=
  if (3 <? List.length argv)%nat then
    console_log "Usage: node src/index.js [script]";;
    process_exit 64
  else if (List.length argv =? 3)%nat then
    runFile (default EmptyString (argv !! 2%nat))
  else
    console_log "Mini JavaScript Engine - REPL Mode";;
    console_log ("Type " +:+ double_quote +:+ "exit" +:+ double_quote +:+ " or "
                 +:+ double_quote +:+ "quit" +:+ double_quote +:+ " to exit");;
    runPrompt stdin.

Definition main (stdin : list string) : result unit :=
  let r := main_body stdin new_MiniJSEngine in
  Result (outcome r) (engine r) (Construct :: events r).

(** The code the process ends with: [process.exit(code)], 0 when the
    program runs to its end, 1 for an exception nobody caught. *)
Definition exit_code {A} (r : result A) : Z :=
  match outcome r with
  | Normal _ => 0
  | Throw _ => 1
  | Exit code => code
  end.

(** ** What the properties read off a sequence of events *)

Definition interpret_calls (evs : list event) : list (IState * Program) :=
  omap (fun ev => match ev with Interpret st statements => Some (st, statements) | _ => None end) evs.

Definition parse_calls (evs : list event) : list Tokens :=
  omap (fun ev => match ev with Parse tokens => Some tokens | _ => None end) evs.

(** The texts the driver passed to [console.log], and to [console.error]. *)
Definition logged (evs : list event) : list string :=
  omap (fun ev => match ev with ConsoleLog text => Some text | _ => None end) evs.

Definition reported (evs : list event) : list string :=
  omap (fun ev => match ev with ConsoleError text => Some text | _ => None end) evs.

Definition constructions (evs : list event) : nat :=
  List.length (omap (fun ev => match ev with Construct => Some tt | _ => None end) evs).

(** Every call of [interpret] enters the interpreter in the state the
    call before it left, the first in the state [st]. *)
Fixpoint chained (st : IState) (calls : list (IState * Program)) : Prop :=
  match calls with
  | [] => True
  | (entered, statements) :: rest =>
      entered = st /\ chained (fst (interpret st statements)) rest
  end.

(** The interpreter after the calls, when it was [st] before them. *)
Definition after_calls (st : IState) (calls : list (IState * Program)) : IState :=
  fold_left (fun st call => fst (interpret st (snd call))) calls st.

(** C2 as the specification states it: when the tokenizer reports an
    error on a source, the parser is not run on it. *)
Definition tokenizer_error_stops_parser : Prop :=
  forall (this : MiniJSEngine) (source : string),
    reports_error (tokenize source) = true ->
    parse_calls (events (run source this)) = [].

(** A piece of driver code works on the interpreter it is given: it makes
    no interpreter, enters the one of the engine as it finds it, each
    further call as the call before left it, and leaves in the engine the
    interpreter as its last call left it. *)
Definition same_interpreter {A} (m : Driver A) : Prop :=
  forall this : MiniJSEngine,
    constructions (events (m this)) = 0%nat
    /\ chained (interpreter this) (interpret_calls (events (m this)))
    /\ interpreter (engine (m this))
       = after_calls (interpreter this) (interpret_calls (events (m this))).

(** Every text a piece of driver code passes to [console.error] begins
    with [Error]: it comes from the [catch] of [run] or of [runFile], not
    from [runtimeError] ([Runtime Error: ...]) nor from [report]
    ([[line ...] Error ...]). *)
Definition own_reports_only {A} (m : Driver A) : Prop :=
  forall this : MiniJSEngine,
    Forall (fun text => String.prefix "Error" text = true) (reported (events (m this))).

(** The sources handed to the tokenizer. *)
Definition tokenize_calls (evs : list event) : list string :=
  omap (fun ev => match ev with Tokenize source => Some source | _ => None end) evs.

(** How often the prompt was written. *)
Definition prompts (evs : list event) : nat :=
  List.length (omap (fun ev => match ev with Prompt => Some tt | _ => None end) evs).

(** The events other than the [console.log] of the driver. *)
Definition without_logs (evs : list event) : list event :=
  List.filter (fun ev => match ev with ConsoleLog _ => false | _ => true end) evs.

(** Whether a piece of driver code ended by throwing. *)
Definition throws {A} (r : result A) : bool :=
  match outcome r with
  | Throw _ => true
  | _ => false
  end.

(** The lines of the input before the first [exit] or [quit]. *)
Fixpoint lines_before_exit (stdin : list string) : list string :=
  match stdin with
  | [] => []
  | line :: rest => if is_exit_command line then [] else line :: lines_before_exit rest
  end.

(** The program the front makes of a source, when neither the tokenizer
    nor the parser throws. *)
Definition parsed_program (source : string) : option Program :=
  match ending (tokenize source) with
  | inl _ => None
  | inr tokens =>
      match ending (parse tokens) with
      | inl _ => None
      | inr statements => Some statements
      end
  end.

(** The programs of a REPL session: one for every line before the first
    exit command that tokenizes and parses. *)
Definition session_programs (stdin : list string) : list Program :=
  omap parsed_program (lines_before_exit stdin).

(** The programs of the process: none with too many arguments, that of
    the script with one argument, those of the session with none. *)
Definition main_programs (stdin : list string) : list Program :=
  if (3 <? List.length argv)%nat then []
  else if (List.length argv =? 3)%nat then
    match readFileSync (default EmptyString (argv !! 2%nat)) with
    | inl _ => []
    | inr source => option_list (parsed_program source)
    end
  else session_programs stdin.

(** *** The same run in [Any] *)

(** The stages as [Any] takes them: what they throw is an [Error]
    object. *)
Definition lifted_tokenize (source : string) : Any.conduct Tokens := Any.lift (tokenize source).
Definition lifted_parse (tokens : Tokens) : Any.conduct Program := Any.lift (parse tokens).
Definition lifted_interpret : IState -> Program -> IState * Any.conduct value :=
  Any.lift_interpret interpret.

Definition lifted_engine (this : MiniJSEngine) : Any.MiniJSEngine IState :=
  Any.Engine (interpreter this) (hadError this) (hadRuntimeError this).

Definition lifted_event (ev : event) : Any.event Tokens Program IState :=
  match ev with
  | Construct => Any.Construct _ _ _
  | Tokenize source => Any.Tokenize _ _ _ source
  | Parse tokens => Any.Parse _ _ _ tokens
  | Interpret st statements => Any.Interpret _ _ _ st statements
  | StageOutput text => Any.StageOutput _ _ _ text
  | ConsoleLog text => Any.ConsoleLog text
  | ConsoleError text => Any.ConsoleError text
  | Prompt => Any.Prompt _ _ _
  end.

Definition lifted_completion {A} (c : completion A) : Any.completion A :=
  match c with
  | Normal a => Any.Normal a
  | Throw e => Any.Throw (Any.thrown_error e)
  | Exit code => Any.Exit code
  end.

(** The events of [Any] that are events here too: all but the
    assignments to the flags. *)
Definition without_assignments (evs : list (Any.event Tokens Program IState))
    : list (Any.event Tokens Program IState) :=
  List.filter (fun ev => match ev with Any.Assign _ _ => false | _ => true end) evs.

(** A result here and a result in [Any] that are the same: the same
    completion, the same engine, and the same events in the same order,
    the assignments apart. *)
Definition agrees {A} (r : result A) (r' : Any.result Tokens Program IState A) : Prop :=
  Any.outcome r' = lifted_completion (outcome r)
  /\ Any.engine r' = lifted_engine (engine r)
  /\ without_assignments (Any.events r') = map lifted_event (events r).

Definition simulates {A} (m : Driver A) (m' : Any.Driver Tokens Program IState A) : Prop :=
  forall this : MiniJSEngine, agrees (m this) (m' (lifted_engine this)).

(** [run] takes one of four paths. *)
Inductive run_path (source : string) (this : MiniJSEngine) : Prop :=
| path_front_throws (e : exn) :
    outcome (front source this) = Throw e -> run_path source this
| path_skips (statements : Program) :
    outcome (front source this) = Normal statements ->
    hadError this = true -> run_path source this
| path_interpret_throws (statements : Program) (st : IState) (out : list string) (e : exn) :
    outcome (front source this) = Normal statements ->
    hadError this = false ->
    interpret (interpreter this) statements = (st, Behaviour out (inl e)) ->
    run_path source this
| path_interpret_returns (statements : Program) (st : IState) (out : list string) (v : value) :
    outcome (front source this) = Normal statements ->
    hadError this = false ->
    interpret (interpreter this) statements = (st, Behaviour out (inr v)) ->
    run_path source this.

(** ** The ways through [run] *)

Ltac unfold_driver :=
  unfold run, run_try, run_catch, front, call_tokenize, call_parse, call_interpret,
    finish, try_catch, console_error, console_log, emit, get_hadError,
    get_hadRuntimeError, set_hadError, set_hadRuntimeError, throw, process_exit,
    mbind, mret, driver_bind, driver_ret, bind, ret in *.

Ltac unfold_rest :=
  unfold call_interpret, finish, console_error, console_log, emit, get_hadError,
    get_hadRuntimeError, set_hadError, set_hadRuntimeError, throw, process_exit,
    mbind, mret, driver_bind, driver_ret, bind, ret.

Lemma front_tokenize_throws (this : MiniJSEngine) (source : string) (e : exn) :
  ending (tokenize source) = inl e ->
  front source this =
    Result (Throw e) this
      (Tokenize source :: map StageOutput (written (tokenize source))).
Proof.
  intros Hscan. unfold_driver. cbn. rewrite Hscan. cbn.
  by rewrite !app_nil_r.
Qed.

Lemma front_parse_throws (this : MiniJSEngine) (source : string) (tokens : Tokens) (e : exn) :
  ending (tokenize source) = inr tokens ->
  ending (parse tokens) = inl e ->
  front source this =
    Result (Throw e) this
      (Tokenize source :: map StageOutput (written (tokenize source))
         ++ Parse tokens :: map StageOutput (written (parse tokens))).
Proof.
  intros Hscan Hparse. unfold_driver. cbn. rewrite Hscan. cbn. rewrite Hparse. cbn.
  by rewrite !app_nil_r.
Qed.

Lemma front_returns (this : MiniJSEngine) (source : string) (tokens : Tokens)
    (statements : Program) :
  ending (tokenize source) = inr tokens ->
  ending (parse tokens) = inr statements ->
  front source this =
    Result (Normal statements) this
      (Tokenize source :: map StageOutput (written (tokenize source))
         ++ Parse tokens :: map StageOutput (written (parse tokens))).
Proof.
  intros Hscan Hparse. unfold_driver. cbn. rewrite Hscan. cbn. rewrite Hparse. cbn.
  by rewrite !app_nil_r.
Qed.

(** No stage can reach the fields of the engine. *)
Lemma front_engine (this : MiniJSEngine) (source : string) :
  engine (front source this) = this.
Proof.
  destruct (ending (tokenize source)) as [e|tokens] eqn:Hscan.
  - by rewrite (front_tokenize_throws _ _ _ Hscan).
  - destruct (ending (parse tokens)) as [e|statements] eqn:Hparse.
    + by rewrite (front_parse_throws _ _ _ _ Hscan Hparse).
    + by rewrite (front_returns _ _ _ _ Hscan Hparse).
Qed.

(** *** Sequencing and handlers *)

Lemma bind_Normal {A B} (m : Driver A) (k : A -> Driver B) (this : MiniJSEngine) (a : A) :
  outcome (m this) = Normal a ->
  (m ≫= k) this =
    Result (outcome (k a (engine (m this)))) (engine (k a (engine (m this))))
      (events (m this) ++ events (k a (engine (m this)))).
Proof. intros Hm. unfold mbind, driver_bind, bind. by rewrite Hm. Qed.

Lemma bind_Throw {A B} (m : Driver A) (k : A -> Driver B) (this : MiniJSEngine) (e : exn) :
  outcome (m this) = Throw e ->
  (m ≫= k) this = Result (Throw e) (engine (m this)) (events (m this)).
Proof. intros Hm. unfold mbind, driver_bind, bind. by rewrite Hm. Qed.

Lemma bind_Exit {A B} (m : Driver A) (k : A -> Driver B) (this : MiniJSEngine) (code : Z) :
  outcome (m this) = Exit code ->
  (m ≫= k) this = Result (Exit code) (engine (m this)) (events (m this)).
Proof. intros Hm. unfold mbind, driver_bind, bind. by rewrite Hm. Qed.

Lemma try_catch_Throw {A} (body : Driver A) (handler : exn -> Driver A)
    (this : MiniJSEngine) (e : exn) :
  outcome (body this) = Throw e ->
  try_catch body handler this =
    Result (outcome (handler e (engine (body this)))) (engine (handler e (engine (body this))))
      (events (body this) ++ events (handler e (engine (body this)))).
Proof. intros Hbody. unfold try_catch. by rewrite Hbody. Qed.

Lemma try_catch_Normal {A} (body : Driver A) (handler : exn -> Driver A)
    (this : MiniJSEngine) (a : A) :
  outcome (body this) = Normal a -> try_catch body handler this = body this.
Proof. intros Hbody. unfold try_catch. by rewrite Hbody. Qed.

Lemma try_catch_Exit {A} (body : Driver A) (handler : exn -> Driver A)
    (this : MiniJSEngine) (code : Z) :
  outcome (body this) = Exit code -> try_catch body handler this = body this.
Proof. intros Hbody. unfold try_catch. by rewrite Hbody. Qed.

Lemma run_catch_eq (e : exn) (this : MiniJSEngine) :
  run_catch e this =
    Result (Normal tt) (Engine (interpreter this) true (hadRuntimeError this))
      [ConsoleError ("Error: " +:+ message e)].
Proof. reflexivity. Qed.

(** *** The [try] block *)

Lemma run_try_front_throws (this : MiniJSEngine) (source : string) (e : exn) :
  outcome (front source this) = Throw e ->
  run_try source this = Result (Throw e) this (events (front source this)).
Proof.
  intros Hfront. unfold run_try. rewrite (bind_Throw _ _ _ _ Hfront).
  by rewrite front_engine.
Qed.

Lemma run_try_skips (this : MiniJSEngine) (source : string) (statements : Program) :
  outcome (front source this) = Normal statements ->
  hadError this = true ->
  run_try source this = Result (Normal tt) this (events (front source this)).
Proof.
  intros Hfront Hflag. unfold run_try. rewrite (bind_Normal _ _ _ _ Hfront).
  rewrite front_engine. unfold_rest. cbn. rewrite Hflag. cbn.
  by rewrite !app_nil_r.
Qed.

Lemma run_try_interpret_throws (this : MiniJSEngine) (source : string)
    (statements : Program) (st : IState) (out : list string) (e : exn) :
  outcome (front source this) = Normal statements ->
  hadError this = false ->
  interpret (interpreter this) statements = (st, Behaviour out (inl e)) ->
  run_try source this =
    Result (Throw e) (Engine st false (hadRuntimeError this))
      (events (front source this)
         ++ Interpret (interpreter this) statements :: map StageOutput out).
Proof.
  intros Hfront Hflag Hrun. unfold run_try. rewrite (bind_Normal _ _ _ _ Hfront).
  rewrite front_engine. unfold_rest. cbn. rewrite Hflag. cbn. rewrite Hrun. cbn.
  by rewrite Hflag, !app_nil_r.
Qed.

Lemma run_try_interpret_returns (this : MiniJSEngine) (source : string)
    (statements : Program) (st : IState) (out : list string) (v : value) :
  outcome (front source this) = Normal statements ->
  hadError this = false ->
  interpret (interpreter this) statements = (st, Behaviour out (inr v)) ->
  run_try source this =
    Result (Normal tt) (Engine st false (hadRuntimeError this))
      (events (front source this)
         ++ Interpret (interpreter this) statements :: map StageOutput out
         ++ (if ToBoolean v && (List.length argv <=? 2)%nat
             then [ConsoleLog (inspect v)] else [])).
Proof.
  intros Hfront Hflag Hrun. unfold run_try. rewrite (bind_Normal _ _ _ _ Hfront).
  rewrite front_engine. unfold_rest. cbn. rewrite Hflag. cbn. rewrite Hrun. cbn.
  destruct (ToBoolean v && (List.length argv <=? 2)%nat); cbn;
    by rewrite Hflag, ?app_nil_r.
Qed.

(** The front never leaves the process. *)
Lemma front_no_exit (this : MiniJSEngine) (source : string) (code : Z) :
  outcome (front source this) <> Exit code.
Proof.
  destruct (ending (tokenize source)) as [e|tokens] eqn:Hscan.
  - by rewrite (front_tokenize_throws _ _ _ Hscan).
  - destruct (ending (parse tokens)) as [e|statements] eqn:Hparse.
    + by rewrite (front_parse_throws _ _ _ _ Hscan Hparse).
    + by rewrite (front_returns _ _ _ _ Hscan Hparse).
Qed.

(** *** [run] itself *)

(** An exception of the front: nothing is interpreted, the handler
    reports it and raises [hadError]. *)
Lemma run_front_throws (this : MiniJSEngine) (source : string) (e : exn) :
  outcome (front source this) = Throw e ->
  run source this =
    Result (Normal tt) (Engine (interpreter this) true (hadRuntimeError this))
      (events (front source this) ++ [ConsoleError ("Error: " +:+ message e)]).
Proof.
  intros Hfront. unfold run.
  erewrite try_catch_Throw; rewrite (run_try_front_throws _ _ _ Hfront); done.
Qed.

(** The check after parsing finds [hadError] raised: [run] returns. *)
Lemma run_skips (this : MiniJSEngine) (source : string) (statements : Program) :
  outcome (front source this) = Normal statements ->
  hadError this = true ->
  run source this = Result (Normal tt) this (events (front source this)).
Proof.
  intros Hfront Hflag. unfold run.
  erewrite try_catch_Normal; rewrite (run_try_skips _ _ _ Hfront Hflag); done.
Qed.

Lemma run_interpret_throws (this : MiniJSEngine) (source : string) (statements : Program)
    (st : IState) (out : list string) (e : exn) :
  outcome (front source this) = Normal statements ->
  hadError this = false ->
  interpret (interpreter this) statements = (st, Behaviour out (inl e)) ->
  run source this =
    Result (Normal tt) (Engine st true (hadRuntimeError this))
      (events (front source this)
         ++ Interpret (interpreter this) statements :: map StageOutput out
         ++ [ConsoleError ("Error: " +:+ message e)]).
Proof.
  intros Hfront Hflag Hrun. unfold run.
  erewrite try_catch_Throw;
    rewrite (run_try_interpret_throws _ _ _ _ _ _ Hfront Hflag Hrun); [|done].
  cbn. by rewrite <- app_assoc.
Qed.

Lemma run_interpret_returns (this : MiniJSEngine) (source : string) (statements : Program)
    (st : IState) (out : list string) (v : value) :
  outcome (front source this) = Normal statements ->
  hadError this = false ->
  interpret (interpreter this) statements = (st, Behaviour out (inr v)) ->
  run source this =
    Result (Normal tt) (Engine st false (hadRuntimeError this))
      (events (front source this)
         ++ Interpret (interpreter this) statements :: map StageOutput out
         ++ (if ToBoolean v && (List.length argv <=? 2)%nat
             then [ConsoleLog (inspect v)] else [])).
Proof.
  intros Hfront Hflag Hrun. unfold run.
  erewrite try_catch_Normal;
    rewrite (run_try_interpret_returns _ _ _ _ _ _ Hfront Hflag Hrun); done.
Qed.

Lemma run_path_total (source : string) (this : MiniJSEngine) : run_path source this.
Proof.
  destruct (outcome (front source this)) as [statements|e|code] eqn:Hfront.
  - destruct (hadError this) eqn:Hflag.
    + by eapply path_skips.
    + destruct (interpret (interpreter this) statements) as [st [out [e|v]]] eqn:Hrun.
      * by eapply path_interpret_throws.
      * by eapply path_interpret_returns.
  - by eapply path_front_throws.
  - by apply front_no_exit in Hfront.
Qed.

(** *** Reading the events of the front *)

Lemma interpret_calls_app (evs1 evs2 : list event) :
  interpret_calls (evs1 ++ evs2) = interpret_calls evs1 ++ interpret_calls evs2.
Proof. apply omap_app. Qed.

Lemma parse_calls_app (evs1 evs2 : list event) :
  parse_calls (evs1 ++ evs2) = parse_calls evs1 ++ parse_calls evs2.
Proof. apply omap_app. Qed.

Lemma logged_app (evs1 evs2 : list event) :
  logged (evs1 ++ evs2) = logged evs1 ++ logged evs2.
Proof. apply omap_app. Qed.

Lemma reported_app (evs1 evs2 : list event) :
  reported (evs1 ++ evs2) = reported evs1 ++ reported evs2.
Proof. apply omap_app. Qed.

Lemma interpret_calls_output (out : list string) :
  interpret_calls (map StageOutput out) = [].
Proof. by induction out. Qed.

Lemma parse_calls_output (out : list string) : parse_calls (map StageOutput out) = [].
Proof. by induction out. Qed.

Lemma logged_output (out : list string) : logged (map StageOutput out) = [].
Proof. by induction out. Qed.

Lemma reported_output (out : list string) : reported (map StageOutput out) = [].
Proof. by induction out. Qed.

Create Rewrite HintDb observe.
Hint Rewrite interpret_calls_app parse_calls_app logged_app reported_app
  interpret_calls_output parse_calls_output logged_output reported_output
  @app_nil_r @app_nil_l : observe.

Ltac observe :=
  repeat (autorewrite with observe; cbn [interpret_calls parse_calls logged reported omap
                                          list_omap app]).

Ltac flatten := repeat first [rewrite <- app_assoc | progress cbn [app]].

(** The events of the front, whatever its end. *)
Lemma front_events (this : MiniJSEngine) (source : string) :
  events (front source this) =
    Tokenize source :: map StageOutput (written (tokenize source))
      ++ match ending (tokenize source) with
         | inl _ => []
         | inr tokens => Parse tokens :: map StageOutput (written (parse tokens))
         end.
Proof.
  destruct (ending (tokenize source)) as [e|tokens] eqn:Hscan.
  - rewrite (front_tokenize_throws _ _ _ Hscan). cbn. by rewrite app_nil_r.
  - destruct (ending (parse tokens)) as [e|statements] eqn:Hparse.
    + by rewrite (front_parse_throws _ _ _ _ Hscan Hparse).
    + by rewrite (front_returns _ _ _ _ Hscan Hparse).
Qed.

Lemma front_interpret_calls (this : MiniJSEngine) (source : string) :
  interpret_calls (events (front source this)) = [].
Proof.
  rewrite front_events. destruct (ending (tokenize source)); cbn; by observe.
Qed.

Lemma front_logged (this : MiniJSEngine) (source : string) :
  logged (events (front source this)) = [].
Proof.
  rewrite front_events. destruct (ending (tokenize source)); cbn; by observe.
Qed.

Lemma front_reported (this : MiniJSEngine) (source : string) :
  reported (events (front source this)) = [].
Proof.
  rewrite front_events. destruct (ending (tokenize source)); cbn; by observe.
Qed.

Lemma front_parse_calls (this : MiniJSEngine) (source : string) :
  parse_calls (events (front source this)) =
    match ending (tokenize source) with
    | inl _ => []
    | inr tokens => [tokens]
    end.
Proof.
  rewrite front_events. destruct (ending (tokenize source)); cbn; by observe.
Qed.

(** ** Properties of [run] *)

(** C2, as the code has it: the parser is run exactly when the tokenizer
    returns, on the tokens it returned, whatever the tokenizer has
    written and whatever [hadError] holds; only an exception thrown by
    the tokenizer keeps the parser from running. *)
Theorem run_parses_unless_tokenizer_throws (this : MiniJSEngine) (source : string) :
  parse_calls (events (run source this)) =
    match ending (tokenize source) with
    | inl _ => []
    | inr tokens => [tokens]
    end.
Proof.
  rewrite <- (front_parse_calls this).
  destruct (run_path_total source this) as
    [e Hfront|statements Hfront Hflag|statements st out e Hfront Hflag Hrun
    |statements st out v Hfront Hflag Hrun].
  - rewrite (run_front_throws _ _ _ Hfront). cbn. by observe.
  - by rewrite (run_skips _ _ _ Hfront Hflag).
  - rewrite (run_interpret_throws _ _ _ _ _ _ Hfront Hflag Hrun). cbn. by observe.
  - rewrite (run_interpret_returns _ _ _ _ _ _ Hfront Hflag Hrun). cbn.
    destruct (ToBoolean v && _); by observe.
Qed.

(** C7: with a script path among the arguments (more than two entries in
    [process.argv]) [run] passes nothing to [console.log]: the value
    [interpret] returns is echoed in REPL mode only. *)
Theorem run_echo_only_in_repl (this : MiniJSEngine) (source : string) :
  (2 < List.length argv)%nat ->
  logged (events (run source this)) = [].
Proof.
  intros Hfile.
  destruct (run_path_total source this) as
    [e Hfront|statements Hfront Hflag|statements st out e Hfront Hflag Hrun
    |statements st out v Hfront Hflag Hrun].
  - rewrite (run_front_throws _ _ _ Hfront). cbn. observe. by rewrite front_logged.
  - rewrite (run_skips _ _ _ Hfront Hflag). cbn. by rewrite front_logged.
  - rewrite (run_interpret_throws _ _ _ _ _ _ Hfront Hflag Hrun). cbn. observe.
    by rewrite front_logged.
  - rewrite (run_interpret_returns _ _ _ _ _ _ Hfront Hflag Hrun). cbn.
    replace (List.length argv <=? 2)%nat with false
      by (symmetry; apply Nat.leb_gt; lia).
    rewrite andb_false_r. observe. by rewrite front_logged.
Qed.

(** C9: in REPL mode (at most two entries in [process.argv]) a line
    that reaches [interpret] and makes it return [v] is echoed, as the
    rendering of [v], exactly when [v] is truthy; for a falsy [v] the
    driver prints nothing.  The values 0, false, the empty string, null
    and undefined are falsy. *)
Theorem run_echo_only_truthy (this : MiniJSEngine) (source : string)
    (statements : Program) (st : IState) (out : list string) (v : value) :
  (List.length argv <= 2)%nat ->
  outcome (front source this) = Normal statements ->
  hadError this = false ->
  interpret (interpreter this) statements = (st, Behaviour out (inr v)) ->
  logged (events (run source this)) = (if ToBoolean v then [inspect v] else [])
  /\ reported (events (run source this)) = []
  /\ Forall (fun falsy => ToBoolean falsy = false)
       [Number (S754_zero false); Boolean false; Str EmptyString; Null; Undefined].
Proof.
  intros Hrepl Hfront Hflag Hrun.
  rewrite (run_interpret_returns _ _ _ _ _ _ Hfront Hflag Hrun). cbn.
  replace (List.length argv <=? 2)%nat with true
    by (symmetry; apply Nat.leb_le; lia).
  rewrite andb_true_r. split_and!.
  - observe. rewrite front_logged. by destruct (ToBoolean v).
  - observe. rewrite front_reported. by destruct (ToBoolean v).
  - by repeat constructor.
Qed.

(** ** The methods built on [run] *)


Lemma bind_assoc {A B C} (m : Driver A) (k : A -> Driver B) (h : B -> Driver C)
    (this : MiniJSEngine) :
  ((m ≫= k) ≫= h) this = (m ≫= (fun a => k a ≫= h)) this.
Proof.
  unfold mbind, driver_bind, bind.
  destruct (outcome (m this)) as [a|e|code]; cbn; [|done..].
  destruct (outcome (k a (engine (m this)))) as [b|e|code]; cbn; [|done..].
  by rewrite app_assoc.
Qed.

Lemma run_outcome (this : MiniJSEngine) (source : string) :
  outcome (run source this) = Normal tt.
Proof.
  destruct (run_path_total source this) as
    [e Hfront|statements Hfront Hflag|statements st out e Hfront Hflag Hrun
    |statements st out v Hfront Hflag Hrun].
  - by rewrite (run_front_throws _ _ _ Hfront).
  - by rewrite (run_skips _ _ _ Hfront Hflag).
  - by rewrite (run_interpret_throws _ _ _ _ _ _ Hfront Hflag Hrun).
  - by rewrite (run_interpret_returns _ _ _ _ _ _ Hfront Hflag Hrun).
Qed.

Lemma run_hadRuntimeError (this : MiniJSEngine) (source : string) :
  hadRuntimeError (engine (run source this)) = hadRuntimeError this.
Proof.
  destruct (run_path_total source this) as
    [e Hfront|statements Hfront Hflag|statements st out e Hfront Hflag Hrun
    |statements st out v Hfront Hflag Hrun].
  - by rewrite (run_front_throws _ _ _ Hfront).
  - by rewrite (run_skips _ _ _ Hfront Hflag).
  - by rewrite (run_interpret_throws _ _ _ _ _ _ Hfront Hflag Hrun).
  - by rewrite (run_interpret_returns _ _ _ _ _ _ Hfront Hflag Hrun).
Qed.

Lemma on_close_eq (this : MiniJSEngine) :
  on_close this = Result (Exit 0) this [ConsoleLog "Goodbye!"].
Proof. reflexivity. Qed.

Lemma on_line_exit (this : MiniJSEngine) (line : string) :
  is_exit_command line = true ->
  on_line line this = Result (Exit 0) this [ConsoleLog "Goodbye!"].
Proof. intros Hexit. unfold on_line. by rewrite Hexit. Qed.

Lemma on_line_run (this : MiniJSEngine) (line : string) :
  is_exit_command line = false ->
  on_line line this =
    Result (Normal tt) (Engine (interpreter (engine (run line this))) false false)
      (events (run line this) ++ [Prompt]).
Proof.
  intros Hexit. unfold on_line. rewrite Hexit.
  rewrite (bind_Normal _ _ _ _ (run_outcome this line)). unfold_rest. by cbn.
Qed.


Lemma read_lines_cons (this : MiniJSEngine) (line : string) (rest : list string) :
  is_exit_command line = false ->
  read_lines (line :: rest) this =
    Result (outcome (read_lines rest (engine (on_line line this))))
      (engine (read_lines rest (engine (on_line line this))))
      (events (on_line line this) ++ events (read_lines rest (engine (on_line line this)))).
Proof.
  intros Hexit. cbn [read_lines].
  apply (bind_Normal (on_line line) (fun _ => read_lines rest) this tt).
  by rewrite on_line_run.
Qed.



Lemma on_line_hadRuntimeError (this : MiniJSEngine) (line : string) :
  hadRuntimeError this = false -> hadRuntimeError (engine (on_line line this)) = false.
Proof.
  intros Hruntime. destruct (is_exit_command line) eqn:Hexit.
  - by rewrite (on_line_exit _ _ Hexit).
  - by rewrite (on_line_run _ _ Hexit).
Qed.

Lemma on_lines_hadRuntimeError (this : MiniJSEngine) (lines : list string) :
  hadRuntimeError this = false -> hadRuntimeError (engine (on_lines lines this)) = false.
Proof.
  revert this. induction lines as [|line rest IH]; intros this Hruntime; [done|].
  cbn [on_lines]. unfold mbind, driver_bind, bind.
  pose proof (on_line_hadRuntimeError this line Hruntime) as Hline.
  destruct (outcome (on_line line this)); cbn; auto.
Qed.

(** The standard input always ends the process with [process.exit(0)]. *)
Lemma read_lines_exit (this : MiniJSEngine) (stdin : list string) :
  outcome (read_lines stdin this) = Exit 0.
Proof.
  revert this. induction stdin as [|line rest IH]; intros this; [done|].
  destruct (is_exit_command line) eqn:Hexit.
  - cbn [read_lines]. unfold mbind, driver_bind, bind.
    by rewrite (on_line_exit _ _ Hexit).
  - rewrite (read_lines_cons _ _ _ Hexit). cbn. apply IH.
Qed.

Lemma read_lines_hadRuntimeError (this : MiniJSEngine) (stdin : list string) :
  hadRuntimeError this = false -> hadRuntimeError (engine (read_lines stdin this)) = false.
Proof.
  revert this. induction stdin as [|line rest IH]; intros this Hruntime; [done|].
  cbn [read_lines]. unfold mbind, driver_bind, bind.
  pose proof (on_line_hadRuntimeError this line Hruntime) as Hline.
  destruct (outcome (on_line line this)); cbn; auto.
Qed.

Lemma runFile_unreadable (this : MiniJSEngine) (path : string) (e : exn) :
  readFileSync path = inl e ->
  runFile path this =
    Result (Exit 1) this [ConsoleError ("Error reading file: " +:+ message e)].
Proof.
  intros Hread. unfold runFile, try_catch, read_file. rewrite Hread. reflexivity.
Qed.

(** [runFile] on a file that can be read: the flags [run] leaves decide
    the exit code. *)
Lemma runFile_readable (this : MiniJSEngine) (path source : string) :
  readFileSync path = inr source ->
  runFile path this =
    Result
      (if hadError (engine (run source this)) then Exit 65
       else if hadRuntimeError (engine (run source this)) then Exit 70
       else Normal tt)
      (engine (run source this)) (events (run source this)).
Proof.
  intros Hread. unfold runFile, read_file. rewrite Hread.
  unfold try_catch, mbind, driver_bind, bind, ret. cbn [outcome engine events app].
  pose proof (run_outcome this source) as Hout. revert Hout.
  generalize (run source). intros m Hout. rewrite Hout. cbn.
  destruct (hadError (engine (m this))); cbn; [by rewrite !app_nil_r|].
  destruct (hadRuntimeError (engine (m this))); cbn; by rewrite !app_nil_r.
Qed.

(** ** One interpreter for the whole session *)

Lemma constructions_app (evs1 evs2 : list event) :
  constructions (evs1 ++ evs2) = (constructions evs1 + constructions evs2)%nat.
Proof. unfold constructions. by rewrite omap_app, length_app. Qed.

Lemma constructions_output (out : list string) : constructions (map StageOutput out) = 0%nat.
Proof. by induction out. Qed.

Lemma front_constructions (this : MiniJSEngine) (source : string) :
  constructions (events (front source this)) = 0%nat.
Proof.
  rewrite front_events. change (Tokenize source :: ?l) with ([Tokenize source] ++ l).
  destruct (ending (tokenize source)) as [e|tokens];
    rewrite ?constructions_app, ?constructions_output; [done|].
  change (Parse tokens :: ?l) with ([Parse tokens] ++ l).
  by rewrite ?constructions_app, ?constructions_output.
Qed.

Lemma after_calls_app (st : IState) (calls1 calls2 : list (IState * Program)) :
  after_calls st (calls1 ++ calls2) = after_calls (after_calls st calls1) calls2.
Proof. apply fold_left_app. Qed.

Lemma chained_app (st : IState) (calls1 calls2 : list (IState * Program)) :
  chained st (calls1 ++ calls2)
  <-> chained st calls1 /\ chained (after_calls st calls1) calls2.
Proof.
  revert st. induction calls1 as [|[entered statements] calls1 IH]; intros st; cbn.
  - tauto.
  - rewrite IH. tauto.
Qed.

(** A property of the interpreter that no call of [interpret] undoes
    holds at every later call once it holds. *)
Lemma chained_stable (P : IState -> Prop) (st : IState) (calls : list (IState * Program)) :
  (forall st statements, P st -> P (fst (interpret st statements))) ->
  chained st calls -> P st -> Forall (fun call => P (fst call)) calls.
Proof.
  intros Hstable. revert st.
  induction calls as [|[entered statements] calls IH]; intros st Hchain HP; [done|].
  destruct Hchain as [-> Hchain]. constructor; [done|].
  apply (IH _ Hchain). by apply Hstable.
Qed.

Lemma same_interpreter_quiet {A} (m : Driver A) :
  (forall this, events (m this) = [] /\ interpreter (engine (m this)) = interpreter this) ->
  same_interpreter m.
Proof. intros Hquiet this. destruct (Hquiet this) as [-> ->]. by cbn. Qed.

Lemma same_interpreter_log {A} (m : Driver A) (text : string) :
  (forall this, events (m this) = [ConsoleLog text] /\ engine (m this) = this) ->
  same_interpreter m.
Proof. intros Hlog this. destruct (Hlog this) as [-> ->]. by cbn. Qed.

Lemma same_interpreter_then {A B} (m : Driver A) (k : A -> Driver B) :
  same_interpreter m -> (forall a, same_interpreter (k a)) -> same_interpreter (m ≫= k).
Proof.
  intros Hm Hk this. destruct (Hm this) as (Hnew & Hchain & Hleft).
  unfold mbind, driver_bind, bind.
  destruct (outcome (m this)) as [a|e|code]; cbn [outcome engine events]; [|done..].
  destruct (Hk a (engine (m this))) as (Hnew' & Hchain' & Hleft').
  rewrite constructions_app, interpret_calls_app, after_calls_app, chained_app.
  rewrite Hnew, Hnew', Hleft', <- Hleft. by split_and!.
Qed.

Lemma same_interpreter_try_catch {A} (body : Driver A) (handler : exn -> Driver A) :
  same_interpreter body -> (forall e, same_interpreter (handler e)) ->
  same_interpreter (try_catch body handler).
Proof.
  intros Hbody Hhandler this. destruct (Hbody this) as (Hnew & Hchain & Hleft).
  unfold try_catch.
  destruct (outcome (body this)) as [a|e|code]; cbn [outcome engine events]; [done| |done].
  destruct (Hhandler e (engine (body this))) as (Hnew' & Hchain' & Hleft').
  rewrite constructions_app, interpret_calls_app, after_calls_app, chained_app.
  rewrite Hnew, Hnew', Hleft', <- Hleft. by split_and!.
Qed.

Lemma same_interpreter_front (source : string) : same_interpreter (front source).
Proof.
  intros this. by rewrite front_constructions, front_interpret_calls, front_engine.
Qed.

Lemma call_interpret_eq (statements : Program) (this : MiniJSEngine) :
  call_interpret statements this =
    Result
      (match ending (snd (interpret (interpreter this) statements)) with
       | inl e => Throw e
       | inr v => Normal v
       end)
      (Engine (fst (interpret (interpreter this) statements)) (hadError this)
         (hadRuntimeError this))
      (Interpret (interpreter this) statements
         :: map StageOutput (written (snd (interpret (interpreter this) statements)))).
Proof.
  unfold call_interpret.
  destruct (interpret (interpreter this) statements) as [st [out [e|v]]];
    unfold_rest; cbn; by rewrite !app_nil_r.
Qed.

Lemma same_interpreter_call_interpret (statements : Program) :
  same_interpreter (call_interpret statements).
Proof.
  intros this. rewrite call_interpret_eq. cbn [outcome engine events interpreter].
  change (Interpret ?a ?b :: ?l) with ([Interpret a b] ++ l).
  rewrite constructions_app, constructions_output, interpret_calls_app,
    interpret_calls_output.
  by cbn.
Qed.

Lemma same_interpreter_run (source : string) : same_interpreter (run source).
Proof.
  apply same_interpreter_try_catch.
  - apply same_interpreter_then; [apply same_interpreter_front|]. intros statements.
    apply same_interpreter_then; [by apply same_interpreter_quiet|]. intros [|].
    + by apply same_interpreter_quiet.
    + apply same_interpreter_then; [apply same_interpreter_call_interpret|]. intros v.
      destruct (ToBoolean v && _).
      * by eapply same_interpreter_log.
      * by apply same_interpreter_quiet.
  - intros e this. by cbn.
Qed.

Lemma same_interpreter_on_close : same_interpreter on_close.
Proof. intros this. by cbn. Qed.

Lemma same_interpreter_on_line (line : string) : same_interpreter (on_line line).
Proof.
  unfold on_line. destruct (is_exit_command line); [apply same_interpreter_on_close|].
  apply same_interpreter_then; [apply same_interpreter_run|]. intros _.
  intros this. by cbn.
Qed.

Lemma same_interpreter_read_lines (stdin : list string) : same_interpreter (read_lines stdin).
Proof.
  induction stdin as [|line rest IH]; [apply same_interpreter_on_close|].
  cbn [read_lines]. apply same_interpreter_then; [apply same_interpreter_on_line|done].
Qed.

Lemma same_interpreter_runFile (path : string) : same_interpreter (runFile path).
Proof.
  apply same_interpreter_try_catch.
  - apply same_interpreter_then.
    { unfold read_file. destruct (readFileSync path); by apply same_interpreter_quiet. }
    intros source. apply same_interpreter_then; [apply same_interpreter_run|]. intros _.
    apply same_interpreter_then; [by apply same_interpreter_quiet|]. intros flag.
    apply same_interpreter_then; [destruct flag; by apply same_interpreter_quiet|]. intros _.
    apply same_interpreter_then; [by apply same_interpreter_quiet|]. intros flag'.
    destruct flag'; by apply same_interpreter_quiet.
  - intros e this. by cbn.
Qed.

Lemma same_interpreter_main_body (stdin : list string) : same_interpreter (main_body stdin).
Proof.
  unfold main_body. destruct (3 <? _)%nat; [intros this; by cbn|].
  destruct (_ =? 3)%nat; [apply same_interpreter_runFile|].
  apply same_interpreter_then; [by eapply same_interpreter_log|]. intros _.
  apply same_interpreter_then; [by eapply same_interpreter_log|]. intros _.
  apply same_interpreter_then; [intros this; by cbn|]. intros _.
  apply same_interpreter_read_lines.
Qed.

(** ** The reporting methods are never run *)

Lemma own_reports_only_silent {A} (m : Driver A) :
  (forall this, reported (events (m this)) = []) -> own_reports_only m.
Proof. intros Hsilent this. by rewrite Hsilent. Qed.

Lemma own_reports_only_then {A B} (m : Driver A) (k : A -> Driver B) :
  own_reports_only m -> (forall a, own_reports_only (k a)) -> own_reports_only (m ≫= k).
Proof.
  intros Hm Hk this. specialize (Hm this). unfold mbind, driver_bind, bind.
  destruct (outcome (m this)) as [a|e|code]; cbn [outcome engine events]; [|done..].
  rewrite reported_app. apply Forall_app. split; [done|apply Hk].
Qed.

Lemma own_reports_only_try_catch {A} (body : Driver A) (handler : exn -> Driver A) :
  own_reports_only body -> (forall e, own_reports_only (handler e)) ->
  own_reports_only (try_catch body handler).
Proof.
  intros Hbody Hhandler this. specialize (Hbody this). unfold try_catch.
  destruct (outcome (body this)) as [a|e|code]; cbn [outcome engine events]; [done| |done].
  rewrite reported_app. apply Forall_app. split; [done|apply Hhandler].
Qed.

Lemma own_reports_only_run (source : string) : own_reports_only (run source).
Proof.
  apply own_reports_only_try_catch.
  - apply own_reports_only_then.
    { apply own_reports_only_silent. intros this. apply front_reported. }
    intros statements. apply own_reports_only_then; [by apply own_reports_only_silent|].
    intros [|]; [by apply own_reports_only_silent|].
    apply own_reports_only_then.
    { apply own_reports_only_silent. intros this. rewrite call_interpret_eq. cbn [events].
      change (Interpret ?a ?b :: ?l) with ([Interpret a b] ++ l).
      by rewrite reported_app, reported_output. }
    intros v. destruct (ToBoolean v && _); by apply own_reports_only_silent.
  - intros e this. cbn. by repeat constructor.
Qed.

Lemma own_reports_only_on_line (line : string) : own_reports_only (on_line line).
Proof.
  unfold on_line. destruct (is_exit_command line); [by apply own_reports_only_silent|].
  apply own_reports_only_then; [apply own_reports_only_run|]. intros _.
  by apply own_reports_only_silent.
Qed.

Lemma own_reports_only_read_lines (stdin : list string) : own_reports_only (read_lines stdin).
Proof.
  induction stdin as [|line rest IH]; [by apply own_reports_only_silent|].
  cbn [read_lines]. apply own_reports_only_then; [apply own_reports_only_on_line|done].
Qed.

Lemma own_reports_only_runFile (path : string) : own_reports_only (runFile path).
Proof.
  apply own_reports_only_try_catch.
  - apply own_reports_only_then.
    { unfold read_file. destruct (readFileSync path); by apply own_reports_only_silent. }
    intros source. apply own_reports_only_then; [apply own_reports_only_run|]. intros _.
    apply own_reports_only_then; [by apply own_reports_only_silent|]. intros flag.
    apply own_reports_only_then; [destruct flag; by apply own_reports_only_silent|]. intros _.
    apply own_reports_only_then; [by apply own_reports_only_silent|]. intros flag'.
    destruct flag'; by apply own_reports_only_silent.
  - intros e this. cbn. by repeat constructor.
Qed.

Lemma own_reports_only_main_body (stdin : list string) : own_reports_only (main_body stdin).
Proof.
  unfold main_body. destruct (3 <? _)%nat; [by apply own_reports_only_silent|].
  destruct (_ =? 3)%nat; [apply own_reports_only_runFile|].
  apply own_reports_only_then; [by apply own_reports_only_silent|]. intros _.
  apply own_reports_only_then; [by apply own_reports_only_silent|]. intros _.
  apply own_reports_only_then; [by apply own_reports_only_silent|]. intros _.
  apply own_reports_only_read_lines.
Qed.

(** ** Properties of the session *)

(** [main] makes exactly one interpreter; every call of [interpret]
    enters that interpreter in the state the call before it left (the
    first in the state of [new Interpreter()]).  Hence a property of the
    global environment that no call of [interpret] undoes, such as a name
    being declared, holds at every later call once a call has
    established it. *)
Theorem main_one_interpreter (stdin : list string) :
  constructions (events (main stdin)) = 1%nat
  /\ chained newInterpreter (interpret_calls (events (main stdin)))
  /\ forall visible : IState -> Prop,
       (forall st statements, visible st -> visible (fst (interpret st statements))) ->
       forall before entered statements later,
         interpret_calls (events (main stdin)) = before ++ (entered, statements) :: later ->
         visible (fst (interpret entered statements)) ->
         Forall (fun call => visible (fst call)) later.
Proof.
  destruct (same_interpreter_main_body stdin new_MiniJSEngine) as (Hnew & Hchain & _).
  unfold main. cbn [events].
  change (Construct :: ?l) with ([Construct] ++ l).
  rewrite constructions_app, interpret_calls_app, Hnew. cbn [interpret_calls omap list_omap app].
  split_and!; [done..|].
  intros visible Hstable before entered statements later Hcalls Hvisible.
  cbn [new_MiniJSEngine interpreter] in Hchain. rewrite Hcalls in Hchain.
  apply chained_app in Hchain as [_ [-> Hchain]].
  by apply (chained_stable visible _ _ Hstable Hchain).
Qed.

(** C5: a line whose interpretation throws does not end the REPL: the
    listener reports the error, prompts again and the remaining lines are
    handled; in file mode the error is reported and the process then
    exits (with code 65). *)
Theorem runtime_error_aborts_program_only (this : MiniJSEngine) (line : string)
    (statements : Program) (st : IState) (out : list string) (e : exn) :
  outcome (front line this) = Normal statements ->
  hadError this = false ->
  interpret (interpreter this) statements = (st, Behaviour out (inl e)) ->
  (is_exit_command line = false ->
     outcome (on_line line this) = Normal tt
     /\ (exists evs, events (on_line line this)
                    = evs ++ [ConsoleError ("Error: " +:+ message e); Prompt])
     /\ forall rest,
          outcome (read_lines (line :: rest) this)
            = outcome (read_lines rest (engine (on_line line this)))
          /\ events (read_lines (line :: rest) this)
            = events (on_line line this) ++ events (read_lines rest (engine (on_line line this))))
  /\ (forall path, readFileSync path = inr line ->
        outcome (runFile path this) = Exit 65
        /\ exists evs, events (runFile path this)
                      = evs ++ [ConsoleError ("Error: " +:+ message e)]).
Proof.
  intros Hfront Hflag Hrun. split.
  - intros Hexit. rewrite (on_line_run _ _ Hexit).
    rewrite (run_interpret_throws _ _ _ _ _ _ Hfront Hflag Hrun). cbn [outcome engine events].
    split_and!; [done| |].
    + exists (events (front line this)
                ++ Interpret (interpreter this) statements :: map StageOutput out).
      by flatten.
    + intros rest. rewrite (read_lines_cons _ _ _ Hexit).
      rewrite (on_line_run _ _ Hexit).
      by rewrite (run_interpret_throws _ _ _ _ _ _ Hfront Hflag Hrun).
  - intros path Hread. rewrite (runFile_readable _ _ _ Hread).
    rewrite (run_interpret_throws _ _ _ _ _ _ Hfront Hflag Hrun). cbn [outcome engine events hadError].
    split; [done|].
    exists (events (front line this)
              ++ Interpret (interpreter this) statements :: map StageOutput out).
    by flatten.
Qed.

(** C3, at a run-time error: when the script is read and parsed and
    [interpret] throws, [run] raises [hadError] and leaves
    [hadRuntimeError] down, so [runFile] exits with code 65, the code of
    a syntax error, and not with 70. *)
Theorem runFile_runtime_error_exits_65 (path source : string) (statements : Program)
    (st : IState) (out : list string) (e : exn) :
  readFileSync path = inr source ->
  outcome (front source new_MiniJSEngine) = Normal statements ->
  interpret newInterpreter statements = (st, Behaviour out (inl e)) ->
  outcome (runFile path new_MiniJSEngine) = Exit 65
  /\ hadError (engine (runFile path new_MiniJSEngine)) = true
  /\ hadRuntimeError (engine (runFile path new_MiniJSEngine)) = false
  /\ reported (events (runFile path new_MiniJSEngine)) = ["Error: " +:+ message e].
Proof.
  intros Hread Hfront Hrun. rewrite (runFile_readable _ _ _ Hread).
  rewrite (run_interpret_throws new_MiniJSEngine _ _ _ _ _ Hfront eq_refl Hrun).
  cbn [outcome engine events hadError hadRuntimeError new_MiniJSEngine].
  split_and!; [done..|]. observe. by rewrite front_reported.
Qed.


(** ** More on [run] *)

Lemma tokenize_calls_app (evs1 evs2 : list event) :
  tokenize_calls (evs1 ++ evs2) = tokenize_calls evs1 ++ tokenize_calls evs2.
Proof. apply omap_app. Qed.

Lemma tokenize_calls_output (out : list string) : tokenize_calls (map StageOutput out) = [].
Proof. by induction out. Qed.

Lemma prompts_app (evs1 evs2 : list event) :
  prompts (evs1 ++ evs2) = (prompts evs1 + prompts evs2)%nat.
Proof. unfold prompts. by rewrite omap_app, length_app. Qed.

Lemma prompts_output (out : list string) : prompts (map StageOutput out) = 0%nat.
Proof. by induction out. Qed.

Lemma front_tokenize_calls (this : MiniJSEngine) (source : string) :
  tokenize_calls (events (front source this)) = [source].
Proof.
  rewrite front_events. change (Tokenize source :: ?l) with ([Tokenize source] ++ l).
  rewrite !tokenize_calls_app, tokenize_calls_output.
  destruct (ending (tokenize source)) as [e|tokens]; [done|].
  change (Parse tokens :: ?l) with ([Parse tokens] ++ l).
  by rewrite tokenize_calls_app, tokenize_calls_output.
Qed.

Lemma front_prompts (this : MiniJSEngine) (source : string) :
  prompts (events (front source this)) = 0%nat.
Proof.
  rewrite front_events. change (Tokenize source :: ?l) with ([Tokenize source] ++ l).
  rewrite !prompts_app, prompts_output.
  destruct (ending (tokenize source)) as [e|tokens]; [done|].
  change (Parse tokens :: ?l) with ([Parse tokens] ++ l).
  by rewrite prompts_app, prompts_output.
Qed.

(** After the front, [run] tokenizes nothing more, writes no prompt and,
    with a script path among the arguments, logs nothing. *)
Lemma run_events_shape (this : MiniJSEngine) (source : string) :
  exists rest,
    events (run source this) = events (front source this) ++ rest
    /\ tokenize_calls rest = []
    /\ prompts rest = 0%nat
    /\ ((2 < List.length argv)%nat -> logged rest = []).
Proof.
  destruct (run_path_total source this) as
    [e Hfront|statements Hfront Hflag|statements st out e Hfront Hflag Hrun
    |statements st out v Hfront Hflag Hrun].
  - rewrite (run_front_throws _ _ _ Hfront). by eexists.
  - rewrite (run_skips _ _ _ Hfront Hflag). exists []. by rewrite app_nil_r.
  - rewrite (run_interpret_throws _ _ _ _ _ _ Hfront Hflag Hrun). cbn [events].
    eexists. split; [done|].
    change (Interpret ?a ?b :: ?l) with ([Interpret a b] ++ l).
    by rewrite !tokenize_calls_app, !prompts_app, !logged_app, tokenize_calls_output,
      prompts_output, logged_output.
  - rewrite (run_interpret_returns _ _ _ _ _ _ Hfront Hflag Hrun). cbn [events].
    eexists. split; [done|].
    change (Interpret ?a ?b :: ?l) with ([Interpret a b] ++ l).
    rewrite !tokenize_calls_app, !prompts_app, !logged_app, tokenize_calls_output,
      prompts_output, logged_output.
    destruct (ToBoolean v) eqn:Htruthy; cbn [andb]; [|done].
    destruct (List.length argv <=? 2)%nat eqn:Hargv; [|done].
    split_and!; [done..|]. intros Hfile. apply Nat.leb_le in Hargv. lia.
Qed.

(** X2: [run] itself never lowers [hadError]: once a run has ended in the
    [catch] block, a further run on the same engine tokenizes and parses
    but interprets nothing, and the flag stays up, until somebody resets
    it (as the line listener of the REPL does). *)
Theorem run_after_failure_skips_interpret (this : MiniJSEngine) (source next : string)
    (e : exn) :
  outcome (run_try source this) = Throw e ->
  interpret_calls (events (run next (engine (run source this)))) = []
  /\ tokenize_calls (events (run next (engine (run source this)))) = [next]
  /\ hadError (engine (run next (engine (run source this)))) = true.
Proof.
  intros Htry.
  assert (Hraised : hadError (engine (run source this)) = true).
  { destruct (run_path_total source this) as
      [e' Hfront|statements Hfront Hflag|statements st out e' Hfront Hflag Hrun
      |statements st out v Hfront Hflag Hrun].
    - by rewrite (run_front_throws _ _ _ Hfront).
    - by rewrite (run_try_skips _ _ _ Hfront Hflag) in Htry.
    - by rewrite (run_interpret_throws _ _ _ _ _ _ Hfront Hflag Hrun).
    - by rewrite (run_try_interpret_returns _ _ _ _ _ _ Hfront Hflag Hrun) in Htry. }
  set (this' := engine (run source this)) in *.
  destruct (run_path_total next this') as
    [e' Hfront|statements Hfront Hflag|statements st out e' Hfront Hflag Hrun
    |statements st out v Hfront Hflag Hrun]; [| |congruence..].
  - rewrite (run_front_throws _ _ _ Hfront). cbn [events engine hadError].
    by rewrite interpret_calls_app, tokenize_calls_app, front_interpret_calls,
      front_tokenize_calls.
  - rewrite (run_skips _ _ _ Hfront Hflag). cbn [events engine].
    by rewrite front_interpret_calls, front_tokenize_calls.
Qed.

Lemma front_Normal_parse_calls (this : MiniJSEngine) (source : string)
    (statements : Program) :
  outcome (front source this) = Normal statements ->
  List.length (parse_calls (events (front source this))) = 1%nat.
Proof.
  intros Hfront. rewrite front_parse_calls.
  destruct (ending (tokenize source)) as [e|tokens] eqn:Hscan; [|done].
  by rewrite (front_tokenize_throws _ _ _ Hscan) in Hfront.
Qed.

Lemma front_parse_calls_length (this : MiniJSEngine) (source : string) :
  (List.length (parse_calls (events (front source this))) <= 1)%nat.
Proof. rewrite front_parse_calls. destruct (ending (tokenize source)); cbn; lia. Qed.

Hint Rewrite tokenize_calls_app tokenize_calls_output : observe.

Ltac observe_calls :=
  repeat (autorewrite with observe;
          cbn [interpret_calls parse_calls tokenize_calls logged reported omap list_omap app]).

(** X3: [run] begins by tokenizing its source, tokenizes exactly once,
    parses and interprets at most once, and interprets only what it has
    parsed. *)
Theorem run_calls_stages_in_order (this : MiniJSEngine) (source : string) :
  head (events (run source this)) = Some (Tokenize source)
  /\ tokenize_calls (events (run source this)) = [source]
  /\ (List.length (interpret_calls (events (run source this)))
      <= List.length (parse_calls (events (run source this))) <= 1)%nat.
Proof.
  pose proof (front_parse_calls_length this source) as Hparsed.
  destruct (run_path_total source this) as
    [e Hfront|statements Hfront Hflag|statements st out e Hfront Hflag Hrun
    |statements st out v Hfront Hflag Hrun].
  - rewrite (run_front_throws _ _ _ Hfront). cbn [events]. observe_calls.
    rewrite front_tokenize_calls, front_interpret_calls.
    split_and!; [by rewrite front_events|done|cbn; lia|done].
  - rewrite (run_skips _ _ _ Hfront Hflag). cbn [events].
    rewrite front_tokenize_calls, front_interpret_calls.
    split_and!; [by rewrite front_events|done|cbn; lia|done].
  - pose proof (front_Normal_parse_calls _ _ _ Hfront) as Hone.
    rewrite (run_interpret_throws _ _ _ _ _ _ Hfront Hflag Hrun). cbn [events]. observe_calls.
    rewrite front_tokenize_calls, front_interpret_calls, Hone.
    split_and!; [by rewrite front_events|done|cbn; lia|done].
  - pose proof (front_Normal_parse_calls _ _ _ Hfront) as Hone.
    rewrite (run_interpret_returns _ _ _ _ _ _ Hfront Hflag Hrun). cbn [events].
    destruct (ToBoolean v && _); observe_calls;
      rewrite front_tokenize_calls, front_interpret_calls, Hone;
      (split_and!; [by rewrite front_events|done|cbn; lia|done]).
Qed.

(** X4: a run writes at most one line of its own: it echoes a result or
    reports an error or stays silent, never both. *)
Theorem run_writes_at_most_one_line (this : MiniJSEngine) (source : string) :
  (List.length (logged (events (run source this)))
   + List.length (reported (events (run source this))) <= 1)%nat.
Proof.
  destruct (run_path_total source this) as
    [e Hfront|statements Hfront Hflag|statements st out e Hfront Hflag Hrun
    |statements st out v Hfront Hflag Hrun].
  - rewrite (run_front_throws _ _ _ Hfront). cbn [events]. observe.
    rewrite front_logged, front_reported; cbn; lia.
  - rewrite (run_skips _ _ _ Hfront Hflag). cbn [events].
    rewrite front_logged, front_reported. cbn. lia.
  - rewrite (run_interpret_throws _ _ _ _ _ _ Hfront Hflag Hrun). cbn [events]. observe.
    rewrite front_logged, front_reported; cbn; lia.
  - rewrite (run_interpret_returns _ _ _ _ _ _ Hfront Hflag Hrun). cbn [events].
    destruct (ToBoolean v && _); observe; rewrite front_logged, front_reported; cbn; lia.
Qed.

(** ** More on the REPL *)

Lemma runPrompt_eq (this : MiniJSEngine) (stdin : list string) :
  runPrompt stdin this =
    Result (outcome (read_lines stdin this)) (engine (read_lines stdin this))
      (Prompt :: events (read_lines stdin this)).
Proof. reflexivity. Qed.

Lemma read_lines_exit_command (this : MiniJSEngine) (line : string) (rest : list string) :
  is_exit_command line = true ->
  read_lines (line :: rest) this = Result (Exit 0) this [ConsoleLog "Goodbye!"].
Proof.
  intros Hexit. cbn [read_lines]. unfold mbind, driver_bind, bind.
  by rewrite (on_line_exit _ _ Hexit).
Qed.

(** What follows an [exit] or [quit] is never read. *)
Lemma read_lines_before_exit (this : MiniJSEngine) (stdin : list string) :
  read_lines stdin this = read_lines (lines_before_exit stdin) this.
Proof.
  revert this. induction stdin as [|line rest IH]; intros this; [done|].
  cbn [lines_before_exit]. destruct (is_exit_command line) eqn:Hexit.
  - by rewrite (read_lines_exit_command _ _ _ Hexit).
  - rewrite !(read_lines_cons _ _ _ Hexit). by rewrite IH.
Qed.

Lemma lines_before_exit_app (earlier later : list string) (line : string) :
  is_exit_command line = true ->
  lines_before_exit (earlier ++ line :: later) = lines_before_exit earlier.
Proof.
  intros Hexit. induction earlier as [|l earlier IH]; cbn.
  - by rewrite Hexit.
  - destruct (is_exit_command l); [done|]. by rewrite IH.
Qed.





(** X7: an [exit] or [quit] line ends the session as the end of the
    input does: the session is the same as if the input had stopped
    before that line, whatever comes after it. *)
Theorem repl_exit_is_end_of_input (this : MiniJSEngine) (earlier later : list string)
    (line : string) :
  is_exit_command line = true ->
  runPrompt (earlier ++ line :: later) this = runPrompt earlier this.
Proof.
  intros Hexit. rewrite !runPrompt_eq.
  rewrite (read_lines_before_exit this (earlier ++ line :: later)).
  rewrite (lines_before_exit_app _ _ _ Hexit).
  by rewrite <- (read_lines_before_exit this earlier).
Qed.

(** ** The process as a whole *)

Lemma main_body_repl (stdin : list string) :
  (3 <? List.length argv)%nat = false ->
  (List.length argv =? 3)%nat = false ->
  outcome (main_body stdin new_MiniJSEngine) = outcome (runPrompt stdin new_MiniJSEngine).
Proof. intros Hmany Hfile. unfold main_body. by rewrite Hmany, Hfile. Qed.

(** X10: run on a script, the driver writes nothing to the standard
    output and never prompts, and the standard input plays no part:
    what the program prints, the stages print. *)
Theorem main_file_mode_quiet (stdin : list string) :
  List.length argv = 3%nat ->
  logged (events (main stdin)) = []
  /\ prompts (events (main stdin)) = 0%nat
  /\ main stdin = main [].
Proof.
  intros Hargv. unfold main, main_body. rewrite Hargv.
  change (3 <? 3)%nat with false. change (3 =? 3)%nat with true. cbn [events].
  split_and!; [| |done];
    change (Construct :: ?l) with ([Construct] ++ l); rewrite ?logged_app, ?prompts_app.
  - destruct (readFileSync (default EmptyString (argv !! 2%nat))) as [e|source] eqn:Hread.
    { by rewrite (runFile_unreadable _ _ _ Hread). }
    rewrite (runFile_readable _ _ _ Hread). cbn [events].
    destruct (run_events_shape new_MiniJSEngine source) as (rest & -> & _ & _ & Hquiet).
    rewrite logged_app, front_logged, Hquiet; [done|lia].
  - destruct (readFileSync (default EmptyString (argv !! 2%nat))) as [e|source] eqn:Hread.
    { by rewrite (runFile_unreadable _ _ _ Hread). }
    rewrite (runFile_readable _ _ _ Hread). cbn [events].
    destruct (run_events_shape new_MiniJSEngine source) as (rest & -> & _ & Hprompts & _).
    by rewrite prompts_app, front_prompts, Hprompts.
Qed.

(** X11: a script that cannot be read: the driver reports
    [Error reading file: <message>] and exits with code 1; no stage is
    called and no flag of the engine is raised. *)
Theorem main_unreadable_script (stdin : list string) (node script path : string) (e : exn) :
  argv = [node; script; path] ->
  readFileSync path = inl e ->
  main stdin =
    Result (Exit 1) new_MiniJSEngine
      [Construct; ConsoleError ("Error reading file: " +:+ message e)].
Proof.
  intros Hargv Hread. unfold main, main_body. rewrite Hargv. cbn [List.length lookup].
  change (3 <? 3)%nat with false. change (3 =? 3)%nat with true. cbn [list_lookup default].
  change (default EmptyString ([node; script; path] !! 2%nat)) with path.
  by rewrite (runFile_unreadable _ _ _ Hread).
Qed.

(** X12: the reporting methods and [run].  [report] writes
    [[line N] Error WHERE: MESSAGE], with N as the host renders the
    number ([error] with an empty WHERE), raises
    [hadError] only, and a run that follows on the same engine interprets
    nothing.  [runtimeError] raises [hadRuntimeError] only, which does not
    keep a following run from interpreting what it has parsed. *)
Theorem reporting_methods_and_run (this : MiniJSEngine) (line : spec_float)
    (where_ text source : string) (e : exn) :
  (events (report line where_ text this)
     = [ConsoleError ("[line " +:+ Number_toString line +:+ "] Error " +:+ where_ +:+ ": "
                      +:+ text)]
   /\ error line text this = report line EmptyString text this
   /\ hadError (engine (report line where_ text this)) = true
   /\ hadRuntimeError (engine (report line where_ text this)) = hadRuntimeError this
   /\ interpret_calls (events (run source (engine (report line where_ text this)))) = [])
  /\ (hadError (engine (runtimeError e this)) = hadError this
      /\ hadRuntimeError (engine (runtimeError e this)) = true
      /\ forall statements,
           outcome (front source this) = Normal statements ->
           hadError this = false ->
           interpret_calls (events (run source (engine (runtimeError e this))))
             = [(interpreter this, statements)]).
Proof.
  split.
  - split_and!; [done..|].
    set (this' := engine (report line where_ text this)).
    assert (Hraised : hadError this' = true) by done.
    destruct (run_path_total source this') as
      [e' Hfront|statements Hfront Hflag|statements st out e' Hfront Hflag Hrun
      |statements st out v Hfront Hflag Hrun]; [| |congruence..].
    + rewrite (run_front_throws _ _ _ Hfront). cbn [events]. observe.
      by rewrite front_interpret_calls.
    + rewrite (run_skips _ _ _ Hfront Hflag). cbn [events]. by rewrite front_interpret_calls.
  - split_and!; [done..|]. intros statements Hfront Hflag.
    set (this' := engine (runtimeError e this)).
    assert (Hfront' : outcome (front source this') = Normal statements).
    { destruct (ending (tokenize source)) as [e'|tokens] eqn:Hscan.
      { by rewrite (front_tokenize_throws _ _ _ Hscan) in Hfront. }
      destruct (ending (parse tokens)) as [e'|statements'] eqn:Hparse.
      { by rewrite (front_parse_throws _ _ _ _ Hscan Hparse) in Hfront. }
      rewrite (front_returns this _ _ _ Hscan Hparse) in Hfront.
      by rewrite (front_returns this' _ _ _ Hscan Hparse). }
    assert (Hflag' : hadError this' = false) by done.
    destruct (interpret (interpreter this') statements) as [st [out [e'|v]]] eqn:Hrun.
    + rewrite (run_interpret_throws _ _ _ _ _ _ Hfront' Hflag' Hrun). cbn [events]. observe.
      by rewrite front_interpret_calls.
    + rewrite (run_interpret_returns _ _ _ _ _ _ Hfront' Hflag' Hrun). cbn [events].
      destruct (ToBoolean v && _); observe; by rewrite front_interpret_calls.
Qed.

(** ** The exit commands *)

Lemma strip_prefix_Some (p s left : list ascii) :
  strip_prefix p s = Some left -> s = p ++ left.
Proof.
  revert s. induction p as [|a p IH]; intros s; cbn.
  - by intros [= ->].
  - destruct s as [|b s]; [done|]. destruct (Ascii.eqb a b) eqn:Hab; [|done].
    apply Ascii.eqb_eq in Hab as ->. intros Hrest. by rewrite (IH _ Hrest).
Qed.

Lemma strip_first_Some (patterns : list (list ascii)) (s left : list ascii) :
  strip_first patterns s = Some left -> exists p, In p patterns /\ s = p ++ left.
Proof.
  induction patterns as [|p patterns IH]; cbn; [done|].
  destruct (strip_prefix p s) as [left'|] eqn:Hp.
  - intros [= <-]. exists p. split; [by left|]. by apply strip_prefix_Some.
  - intros Hrest. destruct (IH Hrest) as (q & Hq & Hs). exists q. split; [by right|done].
Qed.

(** What [strip_all] takes away is a run of patterns. *)
Lemma strip_all_decompose (patterns : list (list ascii)) (fuel : nat) (s : list ascii) :
  exists parts,
    Forall (fun p => In p patterns) parts /\ s = concat parts ++ strip_all patterns fuel s.
Proof.
  revert s. induction fuel as [|fuel IH]; intros s; cbn; [by exists []|].
  destruct (strip_first patterns s) as [left|] eqn:Hfirst; [|by exists []].
  destruct (strip_first_Some _ _ _ Hfirst) as (p & Hp & ->).
  destruct (IH left) as (parts & Hparts & Hleft).
  exists (p :: parts). split; [by constructor|].
  cbn [concat]. by rewrite <- app_assoc, <- Hleft.
Qed.

(** A run of patterns before a text that begins with none of them is
    taken away whole, when no pattern begins another. *)
Lemma strip_all_run (patterns parts : list (list ascii)) (fuel : nat) (t : list ascii) :
  (forall p left, In p patterns -> strip_first patterns (p ++ left) = Some left) ->
  (forall p, In p patterns -> (1 <= List.length p)%nat) ->
  Forall (fun p => In p patterns) parts ->
  (List.length (concat parts) <= fuel)%nat ->
  strip_first patterns t = None ->
  strip_all patterns fuel (concat parts ++ t) = t.
Proof.
  intros Hfirst Hlength Hparts. revert fuel.
  induction Hparts as [|p parts Hp _ IH]; intros fuel Hfuel Hnone.
  - destruct fuel; cbn; [done|]. by rewrite Hnone.
  - cbn [concat] in *. rewrite length_app in Hfuel. pose proof (Hlength p Hp) as Hone.
    destruct fuel as [|fuel]; [lia|].
    rewrite <- app_assoc. cbn [strip_all]. rewrite (Hfirst _ _ Hp).
    apply IH; [lia|done].
Qed.

Lemma white_space_strip_first (p left : list ascii) :
  In p white_space -> strip_first white_space (p ++ left) = Some left.
Proof.
  intros Hp. unfold white_space in Hp. cbn in Hp.
  repeat (destruct Hp as [<-|Hp]; [reflexivity|]). done.
Qed.

Lemma reversed_white_space_strip_first (p left : list ascii) :
  In p (map (@rev ascii) white_space) ->
  strip_first (map (@rev ascii) white_space) (p ++ left) = Some left.
Proof.
  intros Hp. unfold white_space in Hp. cbn in Hp.
  repeat (destruct Hp as [<-|Hp]; [reflexivity|]). done.
Qed.

Lemma white_space_length (p : list ascii) : In p white_space -> (1 <= List.length p)%nat.
Proof.
  intros Hp. unfold white_space in Hp. cbn in Hp.
  repeat (destruct Hp as [<-|Hp]; [cbn; lia|]). done.
Qed.

Lemma reversed_white_space_length (p : list ascii) :
  In p (map (@rev ascii) white_space) -> (1 <= List.length p)%nat.
Proof.
  intros (q & <- & Hq)%in_map_iff. rewrite length_rev. by apply white_space_length.
Qed.

Lemma rev_concat (parts : list (list ascii)) :
  rev (concat parts) = concat (rev (map (@rev ascii) parts)).
Proof.
  induction parts as [|p parts IH]; [done|]. cbn [concat map rev].
  rewrite rev_app_distr, IH, concat_app. cbn. by rewrite app_nil_r.
Qed.

Lemma reversed_run (patterns parts : list (list ascii)) :
  Forall (fun p => In p patterns) parts ->
  Forall (fun p => In p (map (@rev ascii) patterns)) (rev (map (@rev ascii) parts)).
Proof.
  intros Hparts. apply Forall_forall. intros q Hq.
  apply list_elem_of_In, in_rev, in_map_iff in Hq as (p & <- & Hp).
  apply in_map. by apply (proj1 (Forall_forall _ _) Hparts), list_elem_of_In.
Qed.

Lemma unreversed_run (parts : list (list ascii)) :
  Forall (fun p => In p (map (@rev ascii) white_space)) parts ->
  Forall (fun p => In p white_space) (rev (map (@rev ascii) parts)).
Proof.
  intros Hparts. apply Forall_forall. intros q Hq.
  apply list_elem_of_In, in_rev, in_map_iff in Hq as (p & <- & Hp).
  apply list_elem_of_In in Hp.
  apply (proj1 (Forall_forall _ _) Hparts), in_map_iff in Hp as (w & <- & Hw).
  by rewrite rev_involutive.
Qed.

Lemma list_ascii_of_string_app (a b : string) :
  list_ascii_of_string (a +:+ b) = list_ascii_of_string a ++ list_ascii_of_string b.
Proof.
  induction a as [|c a IH]; [done|].
  change (String c a +:+ b) with (String c (a +:+ b)). cbn. by rewrite IH.
Qed.

Lemma string_of_list_ascii_app (a b : list ascii) :
  string_of_list_ascii (a ++ b) = string_of_list_ascii a +:+ string_of_list_ascii b.
Proof.
  induction a as [|c a IH]; [done|]. cbn.
  change (String c ?x +:+ ?y) with (String c (x +:+ y)). by rewrite IH.
Qed.

(** A string is a run of white space, its trimmed part and a run of
    white space. *)
Lemma trim_decompose (s : string) :
  exists l r, white_space_run l /\ white_space_run r /\ s = l +:+ trim s +:+ r.
Proof.
  unfold trim, trimEnd, trimStart. cbn zeta.
  rewrite list_ascii_of_string_of_list_ascii.
  set (bytes := list_ascii_of_string s).
  destruct (strip_all_decompose white_space (List.length bytes) bytes)
    as (left & Hleft & Hbytes).
  set (started := strip_all white_space (List.length bytes) bytes) in *.
  destruct (strip_all_decompose (map (@rev ascii) white_space) (List.length started)
              (rev started)) as (right & Hright & Hstarted).
  set (kept := strip_all (map (@rev ascii) white_space) (List.length started) (rev started))
    in *.
  exists (string_of_list_ascii (concat left)),
    (string_of_list_ascii (concat (rev (map (@rev ascii) right)))).
  split_and!.
  - exists left. split; [done|apply list_ascii_of_string_of_list_ascii].
  - exists (rev (map (@rev ascii) right)).
    split; [by apply unreversed_run|apply list_ascii_of_string_of_list_ascii].
  - rewrite <- !string_of_list_ascii_app, <- rev_concat, <- rev_app_distr, <- Hstarted,
      rev_involutive, <- Hbytes.
    unfold bytes. by rewrite string_of_list_ascii_of_string.
Qed.

(** A word that neither begins nor ends with white space comes out of
    [trim] as it is, whatever white space is around it. *)
Lemma trim_surrounded (l r word : string) :
  white_space_run l -> white_space_run r ->
  (forall t, strip_first white_space (list_ascii_of_string word ++ t) = None) ->
  strip_first (map (@rev ascii) white_space) (rev (list_ascii_of_string word)) = None ->
  trim (l +:+ word +:+ r) = word.
Proof.
  intros (left & Hleft & Hl) (right & Hright & Hr) Hstart Hend.
  unfold trim, trimEnd, trimStart. cbn zeta.
  rewrite list_ascii_of_string_of_list_ascii, !list_ascii_of_string_app, Hl, Hr.
  set (core := list_ascii_of_string word) in *.
  rewrite (strip_all_run white_space left _ (core ++ concat right)
             white_space_strip_first white_space_length Hleft); [|rewrite length_app; lia|done].
  rewrite rev_app_distr, rev_concat.
  rewrite (strip_all_run (map (@rev ascii) white_space) (rev (map (@rev ascii) right)) _
             (rev core) reversed_white_space_strip_first reversed_white_space_length).
  - rewrite rev_involutive. apply string_of_list_ascii_of_string.
  - by apply reversed_run.
  - rewrite <- rev_concat, length_app, length_rev. lia.
  - done.
Qed.

(** X14: a line is an exit command exactly when it is the word [exit] or
    the word [quit], in lower case, with nothing but white space (any
    run of the code points that [trim] strips) before and after it. *)
Theorem is_exit_command_iff (line : string) :
  is_exit_command line = true
  <-> exists l r, white_space_run l /\ white_space_run r
                  /\ (line = l +:+ "exit" +:+ r \/ line = l +:+ "quit" +:+ r).
Proof.
  unfold is_exit_command. rewrite orb_true_iff, !String.eqb_eq. split.
  - intros Hword. destruct (trim_decompose line) as (l & r & Hl & Hr & Hline).
    exists l, r. split_and!; [done..|].
    destruct Hword as [Hword|Hword]; rewrite Hword in Hline; auto.
  - intros (l & r & Hl & Hr & [->| ->]); [left|right];
      (apply trim_surrounded; [done|done|intros t; reflexivity|reflexivity]).
Qed.

(** ** Every program goes to the interpreter *)

Lemma parsed_program_front (this : MiniJSEngine) (source : string) :
  match parsed_program source with
  | Some statements => outcome (front source this) = Normal statements
  | None => exists e, outcome (front source this) = Throw e
  end.
Proof.
  unfold parsed_program.
  destruct (ending (tokenize source)) as [e|tokens] eqn:Hscan.
  { exists e. by rewrite (front_tokenize_throws _ _ _ Hscan). }
  destruct (ending (parse tokens)) as [e|statements] eqn:Hparse.
  - exists e. by rewrite (front_parse_throws _ _ _ _ Hscan Hparse).
  - by rewrite (front_returns _ _ _ _ Hscan Hparse).
Qed.

(** With [hadError] down, [run] hands to the interpreter the program of
    its source, if the front makes one. *)
Lemma run_programs (this : MiniJSEngine) (source : string) :
  hadError this = false ->
  map snd (interpret_calls (events (run source this))) = option_list (parsed_program source).
Proof.
  intros Hdown. pose proof (parsed_program_front this source) as Hparsed.
  destruct (run_path_total source this) as
    [e Hfront|statements Hfront Hflag|statements st out e Hfront Hflag Hrun
    |statements st out v Hfront Hflag Hrun]; [|congruence|..].
  - destruct (parsed_program source); [congruence|].
    rewrite (run_front_throws _ _ _ Hfront). cbn [events]. observe.
    by rewrite front_interpret_calls.
  - destruct (parsed_program source) as [statements'|]; [|destruct Hparsed; congruence].
    assert (statements' = statements) as -> by congruence.
    rewrite (run_interpret_throws _ _ _ _ _ _ Hfront Hflag Hrun). cbn [events]. observe.
    by rewrite front_interpret_calls.
  - destruct (parsed_program source) as [statements'|]; [|destruct Hparsed; congruence].
    assert (statements' = statements) as -> by congruence.
    rewrite (run_interpret_returns _ _ _ _ _ _ Hfront Hflag Hrun). cbn [events].
    destruct (ToBoolean v && _); observe; by rewrite front_interpret_calls.
Qed.

Lemma read_lines_programs (this : MiniJSEngine) (stdin : list string) :
  hadError this = false ->
  map snd (interpret_calls (events (read_lines stdin this))) = session_programs stdin.
Proof.
  unfold session_programs. revert this.
  induction stdin as [|line rest IH]; intros this Hdown; [done|].
  cbn [lines_before_exit]. destruct (is_exit_command line) eqn:Hexit.
  - by rewrite (read_lines_exit_command _ _ _ Hexit).
  - rewrite (read_lines_cons _ _ _ Hexit). cbn [events omap list_omap].
    rewrite interpret_calls_app, map_app, IH by (by rewrite (on_line_run _ _ Hexit)).
    rewrite (on_line_run _ _ Hexit). cbn [events].
    rewrite interpret_calls_app, map_app, (run_programs _ _ Hdown). cbn.
    rewrite app_nil_r. by destruct (parsed_program line).
Qed.

(** C4: [main] makes exactly one interpreter and hands it every program
    of the process, each once and in order: the program of the script,
    or, in a REPL session, that of every line that tokenizes and parses.
    Every call of [interpret] enters that one interpreter in the state
    the call before it left (the first in the state of
    [new Interpreter()]).  Hence a property of the global environment
    that no call of [interpret] undoes, such as a name being declared,
    holds at every later call once a call has established it. *)
Theorem main_passes_programs_to_one_interpreter (stdin : list string) :
  constructions (events (main stdin)) = 1%nat
  /\ map snd (interpret_calls (events (main stdin))) = main_programs stdin
  /\ chained newInterpreter (interpret_calls (events (main stdin)))
  /\ forall visible : IState -> Prop,
       (forall st statements, visible st -> visible (fst (interpret st statements))) ->
       forall before entered statements later,
         interpret_calls (events (main stdin)) = before ++ (entered, statements) :: later ->
         visible (fst (interpret entered statements)) ->
         Forall (fun call => visible (fst call)) later.
Proof.
  destruct (main_one_interpreter stdin) as (Hone & Hchain & Hlater).
  split_and!; [done| |done..].
  unfold main, main_programs, main_body. cbn [events].
  change (Construct :: ?l) with ([Construct] ++ l). rewrite interpret_calls_app.
  cbn [interpret_calls omap list_omap app].
  destruct (3 <? List.length argv)%nat; [done|].
  destruct (List.length argv =? 3)%nat.
  - destruct (readFileSync (default EmptyString (argv !! 2%nat))) as [e|source] eqn:Hread.
    + by rewrite (runFile_unreadable _ _ _ Hread).
    + rewrite (runFile_readable _ _ _ Hread). cbn [events]. by apply run_programs.
  - unfold mbind, driver_bind, bind. cbn. by apply read_lines_programs.
Qed.

(** ** Errors that the front reports without throwing *)

(** C1, where the code departs from it: the check of [hadError] after
    parsing ([// Don't interpret if there was a syntax error]) cannot see
    an error of the source at hand.  No stage is handed the engine and
    [error] and [report] have no caller, so whatever the tokenizer and
    the parser have reported, if they return, the flag is at the check
    what it was at entry; with the flag down, [run] calls [interpret] on
    the statements the parser returned and the interpreter keeps what
    that call does. *)
Theorem run_interprets_after_reported_error (this : MiniJSEngine) (source : string)
    (tokens : Tokens) (statements : Program) :
  ending (tokenize source) = inr tokens ->
  ending (parse tokens) = inr statements ->
  hadError this = false ->
  hadError (engine (front source this)) = false
  /\ Forall (fun text => In (StageOutput text) (events (run source this)))
       (written (tokenize source) ++ written (parse tokens))
  /\ interpret_calls (events (run source this)) = [(interpreter this, statements)]
  /\ interpreter (engine (run source this)) = fst (interpret (interpreter this) statements).
Proof.
  intros Hscan Hparse Hdown.
  assert (Hfront : outcome (front source this) = Normal statements)
    by by rewrite (front_returns _ _ _ _ Hscan Hparse).
  rewrite front_engine. split; [done|].
  assert (Hwritten : Forall (fun text => In (StageOutput text) (events (front source this)))
                       (written (tokenize source) ++ written (parse tokens))).
  { rewrite (front_returns _ _ _ _ Hscan Hparse). cbn [events].
    apply Forall_forall. intros text [Hin|Hin]%list_elem_of_In%in_app_or.
    - right. apply in_or_app. left. by apply in_map.
    - right. apply in_or_app. right. right. by apply in_map. }
  destruct (interpret (interpreter this) statements) as [st [out [e|v]]] eqn:Hrun.
  - rewrite (run_interpret_throws _ _ _ _ _ _ Hfront Hdown Hrun). cbn [events engine interpreter].
    split_and!; [|observe; by rewrite front_interpret_calls|done].
    eapply Forall_impl; [exact Hwritten|]. intros text Hin. apply in_or_app. by left.
  - rewrite (run_interpret_returns _ _ _ _ _ _ Hfront Hdown Hrun). cbn [events engine interpreter].
    split_and!; [| |done].
    + eapply Forall_impl; [exact Hwritten|]. intros text Hin. apply in_or_app. by left.
    + destruct (ToBoolean v && _); observe; by rewrite front_interpret_calls.
Qed.

(** ** The two embeddings agree on stages that throw [Error] objects *)

Lemma without_assignments_app (evs1 evs2 : list (Any.event Tokens Program IState)) :
  without_assignments (evs1 ++ evs2) = without_assignments evs1 ++ without_assignments evs2.
Proof. apply List.filter_app. Qed.

Lemma without_assignments_lifted (evs : list event) :
  without_assignments (map lifted_event evs) = map lifted_event evs.
Proof.
  induction evs as [|ev rest IH]; [done|].
  cbn [map]. unfold without_assignments in *. cbn [List.filter].
  destruct ev; cbn; by rewrite IH.
Qed.

Lemma simulates_then {A B} (m : Driver A) (k : A -> Driver B)
    (m' : Any.Driver Tokens Program IState A) (k' : A -> Any.Driver Tokens Program IState B) :
  simulates m m' -> (forall a, simulates (k a) (k' a)) ->
  simulates (bind m k) (Any.bind _ _ _ m' k').
Proof.
  intros Hm Hk this. destruct (Hm this) as (Hout & Hengine & Hevents).
  unfold agrees, bind, Any.bind. cbv zeta. rewrite Hout.
  destruct (outcome (m this)) as [a|e|code]; cbn; [|done..].
  rewrite Hengine. destruct (Hk a (engine (m this))) as (Hout' & Hengine' & Hevents').
  split_and!; [done..|]. by rewrite without_assignments_app, map_app, Hevents, Hevents'.
Qed.

Lemma simulates_try_catch {A} (body : Driver A) (handler : exn -> Driver A)
    (body' : Any.Driver Tokens Program IState A)
    (handler' : Any.thrown -> Any.Driver Tokens Program IState A) :
  simulates body body' ->
  (forall e, simulates (handler e) (handler' (Any.thrown_error e))) ->
  simulates (try_catch body handler) (Any.try_catch _ _ _ body' handler').
Proof.
  intros Hbody Hhandler this. destruct (Hbody this) as (Hout & Hengine & Hevents).
  unfold agrees, try_catch, Any.try_catch. cbv zeta. rewrite Hout.
  destruct (outcome (body this)) as [a|e|code] eqn:Hbody_out; cbn.
  - by rewrite Hbody_out.
  - rewrite Hengine.
    destruct (Hhandler e (engine (body this))) as (Hout' & Hengine' & Hevents').
    split_and!; [done..|]. by rewrite without_assignments_app, map_app, Hevents, Hevents'.
  - by rewrite Hbody_out.
Qed.

Lemma simulates_ret {A} (a : A) : simulates (ret a) (Any.ret _ _ _ a).
Proof. by intros this. Qed.

Lemma simulates_throw {A} (e : exn) :
  simulates (throw (A := A) e) (Any.throw _ _ _ (Any.thrown_error e)).
Proof. by intros this. Qed.

Lemma simulates_process_exit {A} (code : Z) :
  simulates (process_exit (A := A) code) (Any.process_exit _ _ _ code).
Proof. by intros this. Qed.

Lemma simulates_emit (evs : list event) :
  simulates (emit evs) (Any.emit _ _ _ (map lifted_event evs)).
Proof.
  intros this. split_and!; [done..|]. cbn. apply without_assignments_lifted.
Qed.

Lemma simulates_set_hadError (b : bool) :
  simulates (set_hadError b) (Any.set_hadError _ _ _ b).
Proof. by intros this. Qed.

Lemma simulates_set_hadRuntimeError (b : bool) :
  simulates (set_hadRuntimeError b) (Any.set_hadRuntimeError _ _ _ b).
Proof. by intros this. Qed.

Lemma simulates_finish {A} (b : behaviour A) :
  simulates (finish b) (Any.finish _ _ _ (Any.lift b)).
Proof.
  unfold finish, Any.finish. apply simulates_then.
  - cbn [Any.wrote Any.lift]. rewrite <- (map_map StageOutput lifted_event).
    apply simulates_emit.
  - intros _. cbn [Any.ended Any.lift].
    destruct (ending b) as [e|a]; [apply simulates_throw|apply simulates_ret].
Qed.

Lemma simulates_call_interpret (statements : Program) :
  simulates (call_interpret statements)
    (Any.call_interpret _ _ _ lifted_interpret statements).
Proof.
  intros this. unfold call_interpret, Any.call_interpret, lifted_interpret, Any.lift_interpret.
  cbn [interpreter lifted_engine Any.interpreter Any.hadError Any.hadRuntimeError].
  destruct (interpret (interpreter this) statements) as [st b]. cbn [fst snd].
  destruct (simulates_finish b (Engine st (hadError this) (hadRuntimeError this)))
    as (Hout & Hengine & Hevents).
  change (lifted_engine (Engine ?a ?b ?c)) with (Any.Engine a b c) in Hout, Hengine, Hevents.
  unfold agrees. cbn [outcome engine events Any.outcome Any.engine Any.events].
  split_and!; [done..|].
  change (without_assignments (?ev :: ?l)) with (ev :: without_assignments l).
  by rewrite Hevents.
Qed.

Lemma simulates_run_try (source : string) :
  simulates (run_try source)
    (Any.run_try lifted_tokenize lifted_parse lifted_interpret inspect argv source).
Proof.
  intros this. unfold run_try, front. rewrite bind_assoc. revert this.
  change (simulates
            (bind (call_tokenize source)
               (fun tokens =>
                  bind (call_parse tokens)
                    (fun statements =>
                       bind get_hadError
                         (fun syntax_error : bool =>
                            if syntax_error then ret tt
                            else
                              bind (call_interpret statements)
                                (fun result =>
                                   if ToBoolean result && (List.length argv <=? 2)%nat
                                   then console_log (inspect result)
                                   else ret tt)))))
            (Any.run_try lifted_tokenize lifted_parse lifted_interpret inspect argv source)).
  unfold Any.run_try. apply simulates_then.
  { apply simulates_then; [apply (simulates_emit [Tokenize source])|].
    intros _. apply simulates_finish. }
  intros tokens. apply simulates_then.
  { apply simulates_then; [apply (simulates_emit [Parse tokens])|].
    intros _. apply simulates_finish. }
  intros statements. apply simulates_then; [by intros this|].
  intros [|]; [apply simulates_ret|].
  apply simulates_then; [apply simulates_call_interpret|].
  intros v. destruct (ToBoolean v && _);
    [apply (simulates_emit [ConsoleLog (inspect v)])|apply simulates_ret].
Qed.

Lemma simulates_run (source : string) :
  simulates (run source) (Any.run lifted_tokenize lifted_parse lifted_interpret inspect argv source).
Proof.
  apply simulates_try_catch; [apply simulates_run_try|].
  intros e. apply simulates_then; [|intros _; apply simulates_set_hadError].
  apply (simulates_emit [ConsoleError ("Error: " +:+ message e)]).
Qed.

Lemma simulates_runFile (path : string) :
  simulates (runFile path)
    (Any.runFile lifted_tokenize lifted_parse lifted_interpret inspect readFileSync argv path).
Proof.
  apply simulates_try_catch.
  - apply simulates_then.
    { unfold read_file, Any.read_file.
      destruct (readFileSync path); [apply simulates_throw|apply simulates_ret]. }
    intros source. apply simulates_then; [apply simulates_run|]. intros _.
    apply simulates_then; [by intros this|]. intros syntax_error.
    apply simulates_then.
    { destruct syntax_error; [apply simulates_process_exit|apply simulates_ret]. }
    intros _. apply simulates_then; [by intros this|].
    intros [|]; [apply simulates_process_exit|apply simulates_ret].
  - intros e. apply simulates_then; [|intros _; apply simulates_process_exit].
    apply (simulates_emit [ConsoleError ("Error reading file: " +:+ message e)]).
Qed.

Lemma simulates_on_close : simulates on_close (Any.on_close _ _ _).
Proof.
  apply simulates_then; [apply (simulates_emit [ConsoleLog "Goodbye!"])|].
  intros _. apply simulates_process_exit.
Qed.

Lemma simulates_on_line (line : string) :
  simulates (on_line line)
    (Any.on_line lifted_tokenize lifted_parse lifted_interpret inspect argv line).
Proof.
  unfold on_line, Any.on_line. destruct (is_exit_command line); [apply simulates_on_close|].
  apply simulates_then; [apply simulates_run|]. intros _.
  apply simulates_then; [apply simulates_set_hadError|]. intros _.
  apply simulates_then; [apply simulates_set_hadRuntimeError|]. intros _.
  apply (simulates_emit [Prompt]).
Qed.

Lemma simulates_read_lines (stdin : list string) :
  simulates (read_lines stdin)
    (Any.read_lines lifted_tokenize lifted_parse lifted_interpret inspect argv stdin).
Proof.
  induction stdin as [|line rest IH]; [apply simulates_on_close|].
  cbn [read_lines Any.read_lines]. apply simulates_then; [apply simulates_on_line|done].
Qed.

Lemma simulates_main_body (stdin : list string) :
  simulates (main_body stdin)
    (Any.main_body lifted_tokenize lifted_parse lifted_interpret inspect readFileSync argv stdin).
Proof.
  unfold main_body, Any.main_body. destruct (3 <? List.length argv)%nat.
  { apply simulates_then;
      [apply (simulates_emit [ConsoleLog "Usage: node src/index.js [script]"])|].
    intros _. apply simulates_process_exit. }
  destruct (List.length argv =? 3)%nat; [apply simulates_runFile|].
  apply simulates_then;
    [apply (simulates_emit [ConsoleLog "Mini JavaScript Engine - REPL Mode"])|].
  intros _. apply simulates_then; [apply (simulates_emit [ConsoleLog _])|].
  intros _. apply simulates_then; [apply (simulates_emit [Prompt])|].
  intros _. apply simulates_read_lines.
Qed.

(** On stages that throw [Error] objects the driver of [Any] does what
    the driver of this section does: [run], on any engine, and [main]
    complete the same way, leave the same engine and make the same
    events in the same order, the assignments to the flags apart, which
    are events in [Any] only. *)
Lemma lifted_driver_agrees :
  (forall source,
     simulates (run source)
       (Any.run lifted_tokenize lifted_parse lifted_interpret inspect argv source))
  /\ forall stdin,
       agrees (main stdin)
         (Any.main lifted_tokenize lifted_parse lifted_interpret newInterpreter inspect
            readFileSync argv stdin).
Proof.
  split; [apply simulates_run|].
  intros stdin. destruct (simulates_main_body stdin new_MiniJSEngine)
    as (Hout & Hengine & Hevents).
  unfold agrees, main, Any.main. cbn [outcome engine events Any.outcome Any.engine Any.events].
  split_and!; [done..|].
  change (lifted_engine new_MiniJSEngine) with (Any.new_MiniJSEngine newInterpreter) in Hevents.
  cbn [map lifted_event]. rewrite <- Hevents. reflexivity.
Qed.

End Driver.

Arguments Normal {A} _.
Arguments Throw {A} _.
Arguments Exit {A} _.
Arguments Engine {IState} _ _ _.
Arguments interpreter {IState} _.
Arguments hadError {IState} _.
Arguments hadRuntimeError {IState} _.
Arguments outcome {Tokens Program IState A} _.
Arguments engine {Tokens Program IState A} _.
Arguments events {Tokens Program IState A} _.
Arguments exit_code {Tokens Program IState A} _.
Arguments new_MiniJSEngine {IState} _.
Arguments front {Tokens Program IState} _ _ _ _.
Arguments run_try {Tokens Program IState} _ _ _ _ _ _ _.
Arguments run {Tokens Program IState} _ _ _ _ _ _ _.
Arguments runFile {Tokens Program IState} _ _ _ _ _ _ _ _.
Arguments on_line {Tokens Program IState} _ _ _ _ _ _ _.
Arguments on_lines {Tokens Program IState} _ _ _ _ _ _ _.
Arguments read_lines {Tokens Program IState} _ _ _ _ _ _ _.
Arguments runPrompt {Tokens Program IState} _ _ _ _ _ _ _.
Arguments main {Tokens Program IState} _ _ _ _ _ _ _ _.
Arguments interpret_calls {Tokens Program IState} _.
Arguments parse_calls {Tokens Program IState} _.
Arguments logged {Tokens Program IState} _.
Arguments reported {Tokens Program IState} _.
Arguments constructions {Tokens Program IState} _.
Arguments chained {Program IState} _ _ _.
Arguments tokenizer_error_stops_parser {Tokens Program IState} _ _ _ _ _.

Arguments tokenize_calls {Tokens Program IState} _.
Arguments prompts {Tokens Program IState} _.
Arguments without_logs {Tokens Program IState} _.
Arguments throws {Tokens Program IState A} _.
Arguments report {Tokens Program IState} _ _ _ _ _.
Arguments runtimeError {Tokens Program IState} _ _.

(** ** The two modes of [run] *)

Section Modes.

Variables Tokens Program IState : Type.
Variable tokenize : string -> behaviour Tokens.
Variable parse : Tokens -> behaviour Program.
Variable interpret : IState -> Program -> IState * behaviour value.
Variable inspect : value -> string.
Variables argv argv' : list string.

(** X15: [process.argv] bears on the echo only: for any two argument
    lists, [run] leaves the engine in the same state and gives the same
    events apart from the [console.log] of the result. *)
Theorem run_mode_only_changes_echo (this : MiniJSEngine IState) (source : string) :
  engine (run tokenize parse interpret inspect argv source this)
    = engine (run tokenize parse interpret inspect argv' source this)
  /\ without_logs (events (run tokenize parse interpret inspect argv source this))
     = without_logs (events (run tokenize parse interpret inspect argv' source this)).
Proof.
  destruct (run_path_total _ _ _ tokenize parse interpret source this) as
    [e Hfront|statements Hfront Hflag|statements st out e Hfront Hflag Hrun
    |statements st out v Hfront Hflag Hrun].
  - by rewrite (run_front_throws _ _ _ _ _ interpret inspect argv _ _ _ Hfront),
      (run_front_throws _ _ _ _ _ interpret inspect argv' _ _ _ Hfront).
  - by rewrite (run_skips _ _ _ _ _ interpret inspect argv _ _ _ Hfront Hflag),
      (run_skips _ _ _ _ _ interpret inspect argv' _ _ _ Hfront Hflag).
  - by rewrite (run_interpret_throws _ _ _ _ _ _ inspect argv _ _ _ _ _ _ Hfront Hflag Hrun),
      (run_interpret_throws _ _ _ _ _ _ inspect argv' _ _ _ _ _ _ Hfront Hflag Hrun).
  - rewrite (run_interpret_returns _ _ _ _ _ _ inspect argv _ _ _ _ _ _ Hfront Hflag Hrun),
      (run_interpret_returns _ _ _ _ _ _ inspect argv' _ _ _ _ _ _ Hfront Hflag Hrun).
    cbn [engine events]. split; [done|]. unfold without_logs.
    rewrite !List.filter_app. f_equal.
    change (Interpret ?a ?b ?c ?d ?f :: ?l) with ([Interpret a b c d f] ++ l).
    rewrite !List.filter_app. do 2 f_equal.
    by destruct (ToBoolean v && (List.length argv <=? 2)%nat),
      (ToBoolean v && (List.length argv' <=? 2)%nat).
Qed.

End Modes.

Arguments Result {Tokens Program IState A} _ _ _.
Arguments Construct {Tokens Program IState}.
Arguments ConsoleLog {Tokens Program IState} _.
Arguments ConsoleError {Tokens Program IState} _.

(** ** The driver, whatever the stages throw: properties *)

Section Thrown.

Import Any.

Variables Tokens Program IState : Type.
Variable tokenize : string -> conduct Tokens.
Variable parse : Tokens -> conduct Program.
Variable interpret : IState -> Program -> IState * conduct value.
Variable newInterpreter : IState.
Variable inspect : value -> string.
Variable readFileSync : string -> exn + string.
Variable argv : list string.

Local Abbreviation run_try := (Any.run_try tokenize parse interpret inspect argv).
Local Abbreviation run := (Any.run tokenize parse interpret inspect argv).
Local Abbreviation runFile := (Any.runFile tokenize parse interpret inspect readFileSync argv).
Local Abbreviation on_line := (Any.on_line tokenize parse interpret inspect argv).
Local Abbreviation on_lines := (Any.on_lines tokenize parse interpret inspect argv).
Local Abbreviation read_lines := (Any.read_lines tokenize parse interpret inspect argv).
Local Abbreviation runPrompt := (Any.runPrompt tokenize parse interpret inspect argv).
Local Abbreviation main :=
  (Any.main tokenize parse interpret newInterpreter inspect readFileSync argv).
Local Abbreviation fresh := (Any.new_MiniJSEngine newInterpreter).
Local Abbreviation engine_state := (Any.MiniJSEngine IState).

#[local] Existing Instance Any.driver_ret.
#[local] Existing Instance Any.driver_bind.

Lemma any_reported_app (evs1 evs2 : list (event Tokens Program IState)) :
  reported (evs1 ++ evs2) = reported evs1 ++ reported evs2.
Proof. apply omap_app. Qed.

Lemma any_reported_output (out : list string) :
  reported (map (StageOutput Tokens Program IState) out) = [].
Proof. by induction out. Qed.

Lemma any_assigned_app (evs1 evs2 : list (event Tokens Program IState)) :
  assigned_hadRuntimeError (evs1 ++ evs2)
    = assigned_hadRuntimeError evs1 ++ assigned_hadRuntimeError evs2.
Proof. apply omap_app. Qed.

Lemma any_assigned_output (out : list string) :
  assigned_hadRuntimeError (map (StageOutput Tokens Program IState) out) = [].
Proof. by induction out. Qed.

Lemma any_bind_eq {A B} (m : Driver Tokens Program IState A)
    (k : A -> Driver Tokens Program IState B) (this : engine_state) :
  (m ≫= k) this =
    match outcome (m this) with
    | Normal a =>
        Result (outcome (k a (engine (m this)))) (engine (k a (engine (m this))))
          (events (m this) ++ events (k a (engine (m this))))
    | Throw error => Result (Throw error) (engine (m this)) (events (m this))
    | Exit code => Result (Exit code) (engine (m this)) (events (m this))
    end.
Proof. reflexivity. Qed.

Lemma touches_no_flag_then {A B} (m : Driver Tokens Program IState A)
    (k : A -> Driver Tokens Program IState B) :
  touches_no_flag m -> (forall a, touches_no_flag (k a)) -> touches_no_flag (m ≫= k).
Proof.
  intros Hm Hk this. destruct (Hm this) as (Hflag & Hruntime & Hsilent & Hassigned & Hstays).
  rewrite any_bind_eq.
  destruct (outcome (m this)) as [a|error|code] eqn:Hout; cbn [outcome engine events].
  - destruct (Hk a (engine (m this))) as (Hflag' & Hruntime' & Hsilent' & Hassigned' & Hstays').
    rewrite any_reported_app, any_assigned_app, Hflag', Hruntime', Hsilent, Hsilent',
      Hassigned, Hassigned'.
    by split_and!.
  - by split_and!.
  - by destruct (Hstays code).
Qed.

Lemma touches_no_flag_emit (evs : list (event Tokens Program IState)) :
  reported evs = [] -> assigned_hadRuntimeError evs = [] ->
  touches_no_flag (Any.emit Tokens Program IState evs).
Proof. intros Hsilent Hassigned this. by split_and!. Qed.

Lemma touches_no_flag_finish {A} (b : conduct A) :
  touches_no_flag (Any.finish Tokens Program IState b).
Proof.
  unfold Any.finish. apply touches_no_flag_then.
  - apply touches_no_flag_emit; [apply any_reported_output|apply any_assigned_output].
  - intros _. destruct (ended b); intros this; by split_and!.
Qed.

Lemma touches_no_flag_call_interpret (statements : Program) :
  touches_no_flag (Any.call_interpret Tokens Program IState interpret statements).
Proof.
  intros this. unfold Any.call_interpret.
  destruct (interpret (interpreter this) statements) as [st b].
  destruct (touches_no_flag_finish b (Engine st (hadError this) (hadRuntimeError this)))
    as (Hflag & Hruntime & Hsilent & Hassigned & Hstays).
  cbn [outcome engine events]. by split_and!.
Qed.

(** The [try] block of [run] touches no flag, reports nothing and never
    leaves the process. *)
Lemma any_run_try_quiet (this : engine_state) (source : string) :
  hadError (engine (run_try source this)) = hadError this
  /\ hadRuntimeError (engine (run_try source this)) = hadRuntimeError this
  /\ reported (events (run_try source this)) = []
  /\ assigned_hadRuntimeError (events (run_try source this)) = []
  /\ forall code, outcome (run_try source this) <> Exit code.
Proof.
  revert this. change (touches_no_flag (run_try source)). unfold Any.run_try.
  apply touches_no_flag_then.
  { apply touches_no_flag_then; [by apply touches_no_flag_emit|].
    intros _. apply touches_no_flag_finish. }
  intros tokens. apply touches_no_flag_then.
  { apply touches_no_flag_then; [by apply touches_no_flag_emit|].
    intros _. apply touches_no_flag_finish. }
  intros statements. apply touches_no_flag_then; [intros this; by split_and!|].
  intros [|]; [intros this; by split_and!|].
  apply touches_no_flag_then; [apply touches_no_flag_call_interpret|].
  intros v. destruct (ToBoolean v && _); intros this; by split_and!.
Qed.

(** The three ways out of [run]. *)
Lemma any_run_cases (this : engine_state) (source : string) :
  match outcome (run_try source this) with
  | Normal _ => run source this = run_try source this
  | Throw (Readable text) =>
      run source this =
        Result (Normal tt)
          (Engine (interpreter (engine (run_try source this))) true
             (hadRuntimeError (engine (run_try source this))))
          (events (run_try source this)
             ++ [ConsoleError ("Error: " +:+ text); Assign HadError true])
  | Throw (Unreadable raised) =>
      run source this =
        Result (Throw raised) (engine (run_try source this)) (events (run_try source this))
  | Exit _ => False
  end.
Proof.
  destruct (any_run_try_quiet this source) as (_ & _ & _ & _ & Hstays).
  unfold Any.run, Any.try_catch.
  destruct (outcome (run_try source this)) as [[]|[text|raised]|code] eqn:Htry.
  - done.
  - done.
  - cbn. by rewrite app_nil_r.
  - by apply (Hstays code).
Qed.

(** C6, as the code has it: an exception that ends the [try] block with
    a value whose message can be read is caught, reported as
    [Error: <message>] and raises [hadError], and [run] completes; when
    the message cannot be read (a thrown [null] or [undefined]) the
    [catch] block throws in its turn, nothing is reported, no flag
    changes and that exception reaches the caller of [run]; otherwise
    [run] completes and reports nothing. *)
Theorem any_run_propagates_only_unreadable (this : engine_state) (source : string) :
  (forall text,
     outcome (run_try source this) = Throw (Readable text) ->
     outcome (run source this) = Normal tt
     /\ reported (events (run source this)) = ["Error: " +:+ text]
     /\ hadError (engine (run source this)) = true)
  /\ (forall raised,
       outcome (run_try source this) = Throw (Unreadable raised) ->
       outcome (run source this) = Throw raised
       /\ reported (events (run source this)) = []
       /\ hadError (engine (run source this)) = hadError this)
  /\ ((forall error, outcome (run_try source this) <> Throw error) ->
      outcome (run source this) = Normal tt
      /\ reported (events (run source this)) = []).
Proof.
  pose proof (any_run_cases this source) as Hrun.
  destruct (any_run_try_quiet this source) as (Hflag & _ & Hsilent & _ & _).
  split_and!.
  - intros text Htry. rewrite Htry in Hrun. rewrite Hrun. cbn [outcome events engine hadError].
    by rewrite any_reported_app, Hsilent.
  - intros raised Htry. rewrite Htry in Hrun. rewrite Hrun. by cbn [outcome events engine].
  - intros Hnone. destruct (outcome (run_try source this)) as [[]|error|code] eqn:Htry.
    + rewrite Hrun. by rewrite Htry.
    + by destruct (Hnone error).
    + done.
Qed.

(** X1: [run] never lowers [hadError], and raises it exactly when its
    [try] block ends by throwing a value whose message can be read. *)
Theorem any_run_hadError_exact (this : engine_state) (source : string) :
  hadError (engine (run source this))
    = hadError this || throws_readable (run_try source this).
Proof.
  pose proof (any_run_cases this source) as Hrun.
  destruct (any_run_try_quiet this source) as (Hflag & _).
  unfold throws_readable.
  destruct (outcome (run_try source this)) as [[]|[text|raised]|code]; [..|done].
  - by rewrite Hrun, Hflag, orb_false_r.
  - rewrite Hrun. cbn. by rewrite orb_true_r.
  - rewrite Hrun. cbn [engine]. by rewrite Hflag, orb_false_r.
Qed.

Lemma readable_then {A B} (m : Driver Tokens Program IState A)
    (k : A -> Driver Tokens Program IState B) :
  throws_nothing_unreadable m -> (forall a, throws_nothing_unreadable (k a)) ->
  throws_nothing_unreadable (m ≫= k).
Proof.
  intros Hm Hk this raised. rewrite any_bind_eq. specialize (Hm this raised).
  destruct (outcome (m this)) as [a|error|code] eqn:Hout; cbn [outcome];
    [apply Hk|congruence|done].
Qed.

Lemma readable_finish {A} (b : conduct A) :
  (forall raised, ended b <> inl (Unreadable raised)) ->
  throws_nothing_unreadable (Any.finish Tokens Program IState b).
Proof.
  intros Hb. unfold Any.finish. apply readable_then; [done|].
  intros _ this raised. destruct (ended b) as [error|a] eqn:Hend; cbn; [|done].
  intros [= ->]. by apply (Hb raised).
Qed.

(** With stages that throw nothing unreadable, the [try] block does not
    either. *)
Lemma any_run_try_readable (this : engine_state) (source : string) (raised : thrown) :
  readable_stages tokenize parse interpret ->
  outcome (run_try source this) <> Throw (Unreadable raised).
Proof.
  intros (Hscan & Hparse & Hrun). revert this raised.
  change (throws_nothing_unreadable (run_try source)). unfold Any.run_try.
  apply readable_then.
  { apply readable_then; [done|]. intros _. apply readable_finish, Hscan. }
  intros tokens. apply readable_then.
  { apply readable_then; [done|]. intros _. apply readable_finish, Hparse. }
  intros statements. apply readable_then; [done|].
  intros [|]; [done|]. apply readable_then.
  - intros this raised. unfold Any.call_interpret.
    pose proof (Hrun (interpreter this) statements) as Hb.
    destruct (interpret (interpreter this) statements) as [st b]. cbn [snd] in Hb.
    pose proof (readable_finish b Hb (Engine st (hadError this) (hadRuntimeError this)) raised)
      as Hfinish.
    by cbn [outcome].
  - intros v. by destruct (ToBoolean v && _).
Qed.

(** [run] completes, or throws what its [catch] block threw. *)
Lemma any_run_outcome (this : engine_state) (source : string) :
  outcome (run source this) = Normal tt
  \/ exists raised,
       outcome (run source this) = Throw raised
       /\ outcome (run_try source this) = Throw (Unreadable raised).
Proof.
  pose proof (any_run_cases this source) as Hrun.
  destruct (outcome (run_try source this)) as [[]|[text|raised]|code] eqn:Htry; [..|done].
  - left. by rewrite Hrun, Htry.
  - left. by rewrite Hrun.
  - right. exists raised. by rewrite Hrun.
Qed.

(** *** The flag [hadRuntimeError] *)

Lemma keeps_down_silent {A} (m : Driver Tokens Program IState A) :
  (forall this,
     assigned_hadRuntimeError (events (m this)) = []
     /\ hadRuntimeError (engine (m this)) = hadRuntimeError this
     /\ outcome (m this) <> Exit 70) ->
  keeps_hadRuntimeError_down m.
Proof.
  intros Hsilent this. destruct (Hsilent this) as (-> & -> & Hexit). by split_and!.
Qed.

Lemma keeps_down_then {A B} (m : Driver Tokens Program IState A)
    (k : A -> Driver Tokens Program IState B) :
  keeps_hadRuntimeError_down m -> (forall a, keeps_hadRuntimeError_down (k a)) ->
  keeps_hadRuntimeError_down (m ≫= k).
Proof.
  intros Hm Hk this. destruct (Hm this) as (Hassigned & Hdown).
  unfold mbind, Any.driver_bind, Any.bind.
  destruct (outcome (m this)) as [a|error|code] eqn:Hout; cbn [outcome engine events].
  - destruct (Hk a (engine (m this))) as (Hassigned' & Hdown').
    rewrite any_assigned_app. split; [by apply Forall_app|].
    intros Hthis. destruct (Hdown Hthis) as [Hengine _]. by apply Hdown'.
  - split; [done|]. intros Hthis. by destruct (Hdown Hthis).
  - split; [done|]. intros Hthis. destruct (Hdown Hthis) as [Hengine Hexit].
    split; [done|]. congruence.
Qed.

Lemma keeps_down_try_catch {A} (body : Driver Tokens Program IState A)
    (handler : thrown -> Driver Tokens Program IState A) :
  keeps_hadRuntimeError_down body -> (forall error, keeps_hadRuntimeError_down (handler error)) ->
  keeps_hadRuntimeError_down (Any.try_catch _ _ _ body handler).
Proof.
  intros Hbody Hhandler this. destruct (Hbody this) as (Hassigned & Hdown).
  unfold Any.try_catch.
  destruct (outcome (body this)) as [a|error|code] eqn:Hout; cbn [outcome engine events].
  - split; [done|]. intros Hthis. destruct (Hdown Hthis). split; [done|]. congruence.
  - destruct (Hhandler error (engine (body this))) as (Hassigned' & Hdown').
    rewrite any_assigned_app. split; [by apply Forall_app|].
    intros Hthis. destruct (Hdown Hthis) as [Hengine _]. by apply Hdown'.
  - split; [done|]. intros Hthis. destruct (Hdown Hthis) as [Hengine Hexit].
    split; [done|]. congruence.
Qed.

Lemma keeps_down_run (source : string) : keeps_hadRuntimeError_down (run source).
Proof.
  apply keeps_down_try_catch.
  - apply keeps_down_silent. intros this.
    destruct (any_run_try_quiet this source) as (_ & Hruntime & _ & Hassigned & Hstays).
    split_and!; [done..|apply Hstays].
  - intros [text|raised]; by apply keeps_down_silent.
Qed.

Lemma keeps_down_on_line (line : string) : keeps_hadRuntimeError_down (on_line line).
Proof.
  unfold Any.on_line. destruct (is_exit_command line); [by apply keeps_down_silent|].
  apply keeps_down_then; [apply keeps_down_run|]. intros _.
  apply keeps_down_then; [by apply keeps_down_silent|]. intros _.
  apply keeps_down_then; [|intros _; by apply keeps_down_silent].
  intros this. cbn. split; [by repeat constructor|done].
Qed.

Lemma keeps_down_on_lines (lines : list string) : keeps_hadRuntimeError_down (on_lines lines).
Proof.
  induction lines as [|line rest IH]; [by apply keeps_down_silent|].
  cbn [Any.on_lines]. apply keeps_down_then; [apply keeps_down_on_line|done].
Qed.

Lemma keeps_down_read_lines (stdin : list string) : keeps_hadRuntimeError_down (read_lines stdin).
Proof.
  induction stdin as [|line rest IH]; [by apply keeps_down_silent|].
  cbn [Any.read_lines]. apply keeps_down_then; [apply keeps_down_on_line|done].
Qed.

Lemma keeps_down_runFile (path : string) : keeps_hadRuntimeError_down (runFile path).
Proof.
  apply keeps_down_try_catch.
  - apply keeps_down_then.
    { unfold Any.read_file. destruct (readFileSync path); by apply keeps_down_silent. }
    intros source. apply keeps_down_then; [apply keeps_down_run|]. intros _.
    apply keeps_down_then; [by apply keeps_down_silent|]. intros flag.
    apply keeps_down_then; [destruct flag; by apply keeps_down_silent|]. intros _.
    intros [st flag' [|]]; (split; [by constructor|]); [done|]. by intros _.
  - intros [text|raised]; by apply keeps_down_silent.
Qed.

Lemma keeps_down_main_body (stdin : list string) :
  keeps_hadRuntimeError_down
    (Any.main_body tokenize parse interpret inspect readFileSync argv stdin).
Proof.
  unfold Any.main_body. destruct (3 <? _)%nat; [by apply keeps_down_silent|].
  destruct (_ =? 3)%nat; [apply keeps_down_runFile|].
  apply keeps_down_then; [by apply keeps_down_silent|]. intros _.
  apply keeps_down_then; [by apply keeps_down_silent|]. intros _.
  apply keeps_down_then; [by apply keeps_down_silent|]. intros _.
  apply keeps_down_read_lines.
Qed.

(** C8, as the code has it: an exception caught by the [catch] block of
    [run] raises [hadError] when its message can be read; [run] assigns
    nothing to [hadRuntimeError] and leaves it as it finds it; all that
    the driver ever assigns to [hadRuntimeError] is [false] (in the
    constructor and in the line listener), so in a session begun by
    [main] the flag is down after every run of a line and when [main]
    ends, and no process exits with code 70.  [runtimeError] has no
    caller: a call of it would assign [true]. *)
Theorem any_hadRuntimeError_stays_down :
  (forall this source text,
     outcome (run_try source this) = Throw (Readable text) ->
     hadError (engine (run source this)) = true)
  /\ (forall this source,
       hadRuntimeError (engine (run source this)) = hadRuntimeError this
       /\ assigned_hadRuntimeError (events (run source this)) = [])
  /\ (forall stdin,
       Forall (fun b => b = false) (assigned_hadRuntimeError (events (main stdin))))
  /\ (forall earlier line,
       hadRuntimeError (engine (run line (engine (on_lines earlier fresh)))) = false)
  /\ (forall stdin,
       hadRuntimeError (engine (main stdin)) = false /\ exit_code (main stdin) <> 70%Z)
  /\ (forall text this,
       assigned_hadRuntimeError (events (Any.runtimeError Tokens Program IState text this))
         = [true]).
Proof.
  split_and!; [| | | | |by intros text this].
  - intros this source text Htry. pose proof (any_run_cases this source) as Hrun.
    rewrite Htry in Hrun. by rewrite Hrun.
  - intros this source. pose proof (any_run_cases this source) as Hrun.
    destruct (any_run_try_quiet this source) as (_ & Hruntime & _ & Hassigned & _).
    destruct (outcome (run_try source this)) as [[]|[text|raised]|code]; [..|done];
      rewrite Hrun; cbn [engine events hadRuntimeError]; [done| |done].
    split; [done|]. by rewrite any_assigned_app, Hassigned.
  - intros stdin. destruct (keeps_down_main_body stdin fresh) as [Hassigned _].
    unfold Any.main. cbn [events]. by repeat constructor.
  - intros earlier line.
    destruct (keeps_down_on_lines earlier fresh) as [_ Hdown].
    destruct (keeps_down_run line (engine (on_lines earlier fresh))) as [_ Hdown'].
    by apply Hdown', Hdown.
  - intros stdin. destruct (keeps_down_main_body stdin fresh) as [_ Hdown].
    destruct (Hdown eq_refl) as [Hengine Hexit]. unfold Any.main, exit_code. cbn [outcome engine].
    split; [done|].
    destruct (outcome (Any.main_body tokenize parse interpret inspect readFileSync argv stdin
                         fresh)) as [a|error|code]; [done..|congruence].
Qed.

(** *** The end of the process *)

Lemma any_on_line_exit (this : engine_state) (line : string) :
  is_exit_command line = true ->
  on_line line this = Result (Exit 0) this [ConsoleLog "Goodbye!"].
Proof. intros Hexit. unfold Any.on_line. by rewrite Hexit. Qed.

(** The listener of a line that is run: it completes when [run] does,
    and what [run] throws leaves it. *)
Lemma any_on_line_run (this : engine_state) (line : string) :
  is_exit_command line = false ->
  on_line line this =
    match outcome (run line this) with
    | Normal _ =>
        Result (Normal tt) (Engine (interpreter (engine (run line this))) false false)
          (events (run line this)
             ++ [Assign HadError false; Assign HadRuntimeError false; Prompt _ _ _])
    | Throw raised => Result (Throw raised) (engine (run line this)) (events (run line this))
    | Exit code => Result (Exit code) (engine (run line this)) (events (run line this))
    end.
Proof.
  intros Hexit. unfold Any.on_line. rewrite Hexit.
  unfold mbind, Any.driver_bind. unfold Any.bind at 1.
  by destruct (outcome (run line this)).
Qed.

Lemma any_read_lines_cons (this : engine_state) (line : string) (rest : list string) :
  read_lines (line :: rest) this =
    match outcome (on_line line this) with
    | Normal _ =>
        Result (outcome (read_lines rest (engine (on_line line this))))
          (engine (read_lines rest (engine (on_line line this))))
          (events (on_line line this) ++ events (read_lines rest (engine (on_line line this))))
    | Throw raised => Result (Throw raised) (engine (on_line line this)) (events (on_line line this))
    | Exit code => Result (Exit code) (engine (on_line line this)) (events (on_line line this))
    end.
Proof. reflexivity. Qed.

(** How the input can end: with [Goodbye!] and [process.exit(0)], or
    with an exception that leaves the line listener. *)
Lemma any_read_lines_ends (this : engine_state) (stdin : list string) :
  (outcome (read_lines stdin this) = Exit 0
   /\ exists evs, events (read_lines stdin this) = evs ++ [ConsoleLog "Goodbye!"])
  \/ exists line raised,
       In line stdin /\ outcome (read_lines stdin this) = Throw raised.
Proof.
  revert this. induction stdin as [|line rest IH]; intros this.
  { left. split; [done|]. by exists []. }
  rewrite any_read_lines_cons. destruct (is_exit_command line) eqn:Hexit.
  { rewrite (any_on_line_exit _ _ Hexit). left. split; [done|]. by exists []. }
  rewrite (any_on_line_run _ _ Hexit).
  destruct (any_run_outcome this line) as [Hdone|(raised & Hthrown & _)].
  - rewrite Hdone. cbn [outcome engine events].
    destruct (IH (Engine (interpreter (engine (run line this))) false false))
      as [[Hexit0 [evs Hevs]]|(l & raised & Hl & Hthrown)].
    + left. split; [done|]. rewrite Hevs. eexists. by rewrite app_assoc.
    + right. exists l, raised. split; [by right|done].
  - rewrite Hthrown. right. exists line, raised. split; [by left|done].
Qed.

Lemma any_read_lines_readable (this : engine_state) (stdin : list string) :
  readable_stages tokenize parse interpret ->
  outcome (read_lines stdin this) = Exit 0
  /\ exists evs, events (read_lines stdin this) = evs ++ [ConsoleLog "Goodbye!"].
Proof.
  intros Hreadable. revert this. induction stdin as [|line rest IH]; intros this.
  { split; [done|]. by exists []. }
  rewrite any_read_lines_cons. destruct (is_exit_command line) eqn:Hexit.
  { rewrite (any_on_line_exit _ _ Hexit). split; [done|]. by exists []. }
  rewrite (any_on_line_run _ _ Hexit).
  destruct (any_run_outcome this line) as [Hdone|(raised & _ & Hthrown)].
  - rewrite Hdone. cbn [outcome engine events].
    destruct (IH (Engine (interpreter (engine (run line this))) false false))
      as [Hexit0 [evs Hevs]].
    split; [done|]. rewrite Hevs. eexists. by rewrite app_assoc.
  - by destruct (any_run_try_readable this line raised Hreadable).
Qed.

Lemma any_runPrompt_eq (this : engine_state) (stdin : list string) :
  runPrompt stdin this =
    Result (outcome (read_lines stdin this)) (engine (read_lines stdin this))
      (Prompt _ _ _ :: events (read_lines stdin this)).
Proof. reflexivity. Qed.


Lemma any_runFile_unreadable (this : engine_state) (path : string) (e : exn) :
  readFileSync path = inl e ->
  runFile path this =
    Result (Exit 1) this [ConsoleError ("Error reading file: " +:+ message e)].
Proof.
  intros Hread. unfold Any.runFile, Any.try_catch, Any.read_file. rewrite Hread. reflexivity.
Qed.

(** [runFile] on a file that can be read. *)
Lemma any_runFile_exit_code (this : engine_state) (path source : string) :
  readFileSync path = inr source ->
  hadError this = false ->
  hadRuntimeError this = false ->
  exit_code (runFile path this) =
    match outcome (run_try source this) with
    | Throw (Readable _) => 65%Z
    | Throw (Unreadable _) => 1%Z
    | _ => 0%Z
    end.
Proof.
  intros Hread Hflag Hruntime.
  pose proof (any_run_cases this source) as Hrun.
  destruct (any_run_try_quiet this source) as (Hflag' & Hruntime' & _ & _ & Hstays).
  unfold exit_code, Any.runFile, Any.try_catch, Any.read_file. rewrite Hread.
  unfold mbind, Any.driver_bind, Any.bind, Any.driver_ret, mret, Any.ret.
  cbn [outcome engine events app].
  revert Hrun Hflag' Hruntime' Hstays. generalize (run source) (run_try source).
  intros m body Hrun Hflag' Hruntime' Hstays.
  destruct (outcome (body this)) as [[]|[text|raised]|code] eqn:Htry;
    [..|by destruct (Hstays code)].
  - rewrite Hrun, Htry. cbn. rewrite Hflag', Hflag. cbn. by rewrite Hruntime', Hruntime.
  - rewrite Hrun. by cbn.
  - rewrite Hrun. cbn. by destruct raised.
Qed.

(** X9: the exit code of the process.  More than one argument: 64.  One
    argument, the script: 1 when the file cannot be read, 65 when a
    stage throws a value whose message can be read (tokenizer, parser or
    interpreter alike), 1 when a stage throws a value whose message
    cannot be read, 0 otherwise.  No argument, the REPL: 0, or 1 when an
    exception leaves the line listener, which stages that throw nothing
    unreadable never cause. *)
Theorem any_main_exit_code (stdin : list string) :
  exit_code (main stdin) =
    (if (3 <? List.length argv)%nat then 64%Z
     else if (List.length argv =? 3)%nat then
       match readFileSync (default EmptyString (argv !! 2%nat)) with
       | inl _ => 1%Z
       | inr source =>
           match outcome (run_try source fresh) with
           | Throw (Readable _) => 65%Z
           | Throw (Unreadable _) => 1%Z
           | _ => 0%Z
           end
       end
     else
       match outcome (runPrompt stdin fresh) with
       | Throw _ => 1%Z
       | _ => 0%Z
       end)
  /\ (readable_stages tokenize parse interpret ->
      (List.length argv < 3)%nat -> exit_code (main stdin) = 0%Z).
Proof.
  assert (Hbody : exit_code (main stdin)
                  = exit_code (Any.main_body tokenize parse interpret inspect readFileSync
                                 argv stdin fresh)) by done.
  rewrite Hbody. unfold Any.main_body. split.
  - destruct (3 <? List.length argv)%nat; [done|].
    destruct (List.length argv =? 3)%nat.
    + destruct (readFileSync (default EmptyString (argv !! 2%nat))) as [e|source] eqn:Hread.
      * by rewrite (any_runFile_unreadable _ _ _ Hread).
      * by apply any_runFile_exit_code.
    + change (exit_code ?r) with
        (match outcome r with Normal _ => 0%Z | Throw _ => 1%Z | Exit code => code end).
      unfold mbind, Any.driver_bind, Any.bind. cbn [outcome engine events Any.console_log Any.emit].
      destruct (any_read_lines_ends fresh stdin) as [[Hexit _]|(l & raised & _ & Hthrown)];
        rewrite any_runPrompt_eq; cbn [outcome]; [by rewrite Hexit|by rewrite Hthrown].
  - intros Hreadable Hargv.
    replace (3 <? List.length argv)%nat with false by (symmetry; apply Nat.ltb_ge; lia).
    replace (List.length argv =? 3)%nat with false by (symmetry; apply Nat.eqb_neq; lia).
    unfold exit_code, mbind, Any.driver_bind, Any.bind.
    cbn [outcome engine events Any.console_log Any.emit].
    rewrite any_runPrompt_eq. cbn [outcome].
    by destruct (any_read_lines_readable fresh stdin Hreadable) as [-> _].
Qed.

End Thrown.

(** Stages that throw [Error] objects throw nothing unreadable. *)
Lemma lift_readable {A} (b : behaviour A) (raised : Any.thrown) :
  Any.ended (Any.lift b) <> inl (Any.Unreadable raised).
Proof. unfold Any.lift. by destruct (ending b). Qed.

Lemma lifted_stages_readable {Tokens Program IState : Type}
    (tokenize : string -> behaviour Tokens) (parse : Tokens -> behaviour Program)
    (interpret : IState -> Program -> IState * behaviour value) :
  Any.readable_stages (fun source => Any.lift (tokenize source))
    (fun tokens => Any.lift (parse tokens)) (Any.lift_interpret interpret).
Proof. split_and!; intros; apply lift_readable. Qed.

(** ** The properties on the sample stages *)

Section OnSample.

Import Sample.

Local Abbreviation sample_run := (run tokenize parse interpret inspect).
Local Abbreviation sample_runFile := (runFile tokenize parse interpret inspect readFileSync).
Local Abbreviation sample_main := (main tokenize parse interpret newInterpreter inspect readFileSync).
Local Abbreviation fresh := (new_MiniJSEngine newInterpreter).

(** A declaration is never undone by the sample interpreter. *)
Lemma sample_interpret_from_keeps (name : string) (statements : list statement) :
  forall (last : value) (globals : gmap string value),
    declared name globals -> declared name (fst (interpret_from last globals statements)).
Proof.
  unfold declared.
  induction statements as [|[x init|a] rest IH]; intros last globals Hdeclared; cbn.
  - done.
  - destruct (evaluate globals init) as [e|v]; [done|].
    apply IH. rewrite lookup_insert. by case_decide.
  - destruct (evaluate globals a) as [e|v]; [done|]. by apply IH.
Qed.

Lemma sample_interpret_keeps (name : string) (globals : gmap string value)
    (statements : list statement) :
  declared name globals -> declared name (fst (interpret globals statements)).
Proof. apply sample_interpret_from_keeps. Qed.

(** C2, as stated, fails: the tokenizer reports the character [@] of the
    line [@ x] and scans on, and the parser is run on the token that is
    left. *)
Lemma tokenizer_error_stops_parser_fails :
  ~ tokenizer_error_stops_parser tokenize parse interpret inspect repl_argv.
Proof.
  intros Hclaim. specialize (Hclaim fresh "@ x" eq_refl).
  vm_compute in Hclaim. discriminate Hclaim.
Qed.

Example tokenizer_error_then_parse :
  reports_error (tokenize "@ x") = true
  /\ parse_calls (events (sample_run repl_argv "@ x" fresh)) = [["x"]].
Proof. split; reflexivity. Qed.

(** Nor does a raised [hadError] keep the parser from running. *)
Example parser_runs_with_hadError_raised :
  parse_calls (events (sample_run repl_argv "x" (Engine newInterpreter true false))) = [["x"]].
Proof. reflexivity. Qed.

(** C3 on the script, which reads the undeclared name [y]. *)
Lemma runFile_runtime_error_exits_65_witness :
  readFileSync "script.js" = inr "y"
  /\ outcome (sample_runFile file_argv "script.js" fresh) = Exit 65
  /\ hadError (engine (sample_runFile file_argv "script.js" fresh)) = true
  /\ hadRuntimeError (engine (sample_runFile file_argv "script.js" fresh)) = false
  /\ reported (events (sample_runFile file_argv "script.js" fresh))
     = ["Error: " +:+ message (Error "Undefined variable 'y'.")].
Proof.
  split; [reflexivity|].
  apply (runFile_runtime_error_exits_65 _ _ _ tokenize parse interpret newInterpreter inspect
           readFileSync file_argv "script.js" "y" [ExpressionStatement (Identifier "y")]
           newInterpreter []);
    reflexivity.
Defined.

(** The whole process on that script: one report, exit code 65. *)
Example sample_script_exit_code :
  exit_code (sample_main file_argv []) = 65%Z
  /\ reported (events (sample_main file_argv [])) = ["Error: Undefined variable 'y'."].
Proof. split; reflexivity. Qed.

(** A REPL session: a declaration, its echo, a run-time error and [quit]. *)
Example sample_session :
  logged (events (sample_main repl_argv ["var x = 'hi"; "x"; "y"; "  quit "; "x"]))
    = ["Mini JavaScript Engine - REPL Mode";
       "Type " +:+ double_quote +:+ "exit" +:+ double_quote +:+ " or "
         +:+ double_quote +:+ "quit" +:+ double_quote +:+ " to exit";
       "hi"; "Goodbye!"]
  /\ reported (events (sample_main repl_argv ["var x = 'hi"; "x"; "y"; "  quit "; "x"]))
     = ["Error: Undefined variable 'y'."]
  /\ exit_code (sample_main repl_argv ["var x = 'hi"; "x"; "y"; "  quit "; "x"]) = 0%Z.
Proof. split_and!; reflexivity. Qed.

(** C5 on the line [y] in the REPL, and on the script [script.js], which
    holds the same text. *)
Lemma runtime_error_aborts_program_only_witness :
  outcome (front tokenize parse "y" fresh) = Normal [ExpressionStatement (Identifier "y")]
  /\ outcome (on_line tokenize parse interpret inspect repl_argv "y" fresh) = Normal tt
  /\ outcome (sample_runFile file_argv "script.js" fresh) = Exit 65.
Proof.
  split; [reflexivity|].
  destruct (runtime_error_aborts_program_only _ _ _ tokenize parse interpret inspect
              readFileSync repl_argv fresh "y" [ExpressionStatement (Identifier "y")]
              newInterpreter [] (Error "Undefined variable 'y'.")
              eq_refl eq_refl eq_refl) as [Hrepl _].
  destruct (runtime_error_aborts_program_only _ _ _ tokenize parse interpret inspect
              readFileSync file_argv fresh "y" [ExpressionStatement (Identifier "y")]
              newInterpreter [] (Error "Undefined variable 'y'.")
              eq_refl eq_refl eq_refl) as [_ Hfile].
  split.
  - assert (Hline : is_exit_command "y" = false) by (vm_compute; reflexivity).
    exact (proj1 (Hrepl Hline)).
  - exact (proj1 (Hfile "script.js" eq_refl)).
Defined.

(** C7 on the line [true] with a script path among the arguments. *)
Lemma run_echo_only_in_repl_witness :
  (2 < List.length file_argv)%nat
  /\ logged (events (sample_run file_argv "true" fresh)) = [].
Proof.
  assert (Hfile : (2 < List.length file_argv)%nat) by (cbn; lia).
  split; [exact Hfile|].
  apply (run_echo_only_in_repl _ _ _ tokenize parse interpret inspect file_argv fresh "true" Hfile).
Defined.

(** C9 on the line [false]: it is interpreted and nothing is echoed. *)
Lemma run_echo_only_truthy_witness :
  (List.length repl_argv <= 2)%nat
  /\ logged (events (sample_run repl_argv "false" fresh))
     = (if ToBoolean (Boolean false) then [inspect (Boolean false)] else []).
Proof.
  assert (Hrepl : (List.length repl_argv <= 2)%nat) by (cbn; lia).
  split; [exact Hrepl|].
  apply (run_echo_only_truthy _ _ _ tokenize parse interpret inspect repl_argv fresh "false"
           [ExpressionStatement (Literal (Boolean false))] newInterpreter [] (Boolean false)
           Hrepl eq_refl eq_refl eq_refl).
Defined.


(** X2 on the lines [y] and [true]: after the failure of [y] nothing
    more is interpreted. *)
Lemma run_after_failure_skips_interpret_witness :
  outcome (run_try tokenize parse interpret inspect repl_argv "y" fresh)
    = Throw (Error "Undefined variable 'y'.")
  /\ interpret_calls
       (events (sample_run repl_argv "true" (engine (sample_run repl_argv "y" fresh)))) = []
  /\ tokenize_calls
       (events (sample_run repl_argv "true" (engine (sample_run repl_argv "y" fresh)))) = ["true"]
  /\ hadError (engine (sample_run repl_argv "true" (engine (sample_run repl_argv "y" fresh))))
     = true.
Proof.
  split; [reflexivity|].
  apply (run_after_failure_skips_interpret _ _ _ tokenize parse interpret inspect repl_argv
           fresh "y" "true" (Error "Undefined variable 'y'.")).
  reflexivity.
Defined.

(** X7 on a session with a [quit] in the middle. *)
Lemma repl_exit_is_end_of_input_witness :
  is_exit_command " quit" = true
  /\ runPrompt tokenize parse interpret inspect repl_argv (["true"] ++ " quit" :: ["y"]) fresh
     = runPrompt tokenize parse interpret inspect repl_argv ["true"] fresh.
Proof.
  split; [reflexivity|].
  apply (repl_exit_is_end_of_input _ _ _ tokenize parse interpret inspect repl_argv fresh
           ["true"] ["y"] " quit").
  reflexivity.
Defined.

(** X10 on the sample script, with lines waiting on the standard input. *)
Lemma main_file_mode_quiet_witness :
  List.length file_argv = 3%nat
  /\ logged (events (sample_main file_argv ["true"])) = []
  /\ prompts (events (sample_main file_argv ["true"])) = 0%nat
  /\ sample_main file_argv ["true"] = sample_main file_argv [].
Proof.
  split; [reflexivity|].
  apply (main_file_mode_quiet _ _ _ tokenize parse interpret newInterpreter inspect
           readFileSync file_argv ["true"]).
  reflexivity.
Defined.

(** X11 on a path the sample file system does not hold. *)
Lemma main_unreadable_script_witness :
  readFileSync "missing.js"
    = inl (Error "ENOENT: no such file or directory, open 'missing.js'")
  /\ sample_main ["node"; "src/index.js"; "missing.js"] []
     = Result (Exit 1) fresh
         [Construct;
          ConsoleError
            ("Error reading file: "
               +:+ message (Error "ENOENT: no such file or directory, open 'missing.js'"))].
Proof.
  split; [reflexivity|].
  apply (main_unreadable_script _ _ _ tokenize parse interpret newInterpreter inspect
           readFileSync ["node"; "src/index.js"; "missing.js"] [] "node" "src/index.js"
           "missing.js");
    reflexivity.
Defined.

(** X12 on the line [true]: interpreted after [runtimeError], not after
    [report]. *)
Lemma reporting_methods_and_run_witness :
  interpret_calls
    (events (sample_run repl_argv "true"
               (engine (report (Tokens := list string) (Program := list statement)
                          (fun _ => "3") (S754_finite false 3 0) "at end"
                          "Expect expression." fresh))))
    = []
  /\ interpret_calls
       (events (sample_run repl_argv "true"
                  (engine (runtimeError (Tokens := list string) (Program := list statement)
                             (Error "Boom.") fresh))))
     = [(interpreter fresh, [ExpressionStatement (Literal (Boolean true))])].
Proof.
  destruct (reporting_methods_and_run _ _ _ tokenize parse interpret inspect repl_argv
              (fun _ => "3") fresh (S754_finite false 3 0) "at end" "Expect expression."
              "true" (Error "Boom."))
    as [(_ & _ & _ & _ & Hreport) (_ & _ & Hruntime)].
  split; [exact Hreport|].
  apply (Hruntime [ExpressionStatement (Literal (Boolean true))]); reflexivity.
Defined.

(** C4 on a session of three lines: each line's program goes to the
    interpreter, and the second and the third call still see the [x]
    that the first line declared. *)
Lemma main_passes_programs_to_one_interpreter_witness :
  declared "x" (fst (interpret newInterpreter [VarDeclaration "x" (Literal (Str "hi"))]))
  /\ map snd (interpret_calls (events (sample_main repl_argv ["var x = 'hi"; "x"; "y"])))
     = [[VarDeclaration "x" (Literal (Str "hi"))];
        [ExpressionStatement (Identifier "x")];
        [ExpressionStatement (Identifier "y")]]
  /\ Forall (fun call => declared "x" (fst call))
       (drop 1 (interpret_calls (events (sample_main repl_argv ["var x = 'hi"; "x"; "y"])))).
Proof.
  assert (Hdeclared :
            declared "x" (fst (interpret newInterpreter [VarDeclaration "x" (Literal (Str "hi"))])))
    by (exists (Str "hi"); reflexivity).
  split; [exact Hdeclared|].
  destruct (main_passes_programs_to_one_interpreter _ _ _ tokenize parse interpret
              newInterpreter inspect readFileSync repl_argv ["var x = 'hi"; "x"; "y"])
    as (_ & Hprograms & _ & Hlater).
  split; [exact Hprograms|].
  apply (Hlater (declared "x") (sample_interpret_keeps "x") []
           newInterpreter [VarDeclaration "x" (Literal (Str "hi"))]).
  - reflexivity.
  - exact Hdeclared.
Defined.

(** C1 on the line [var x = ; var y = true]: the parser reports the first
    statement and returns the second, which is interpreted: [y] is
    declared. *)
Lemma run_interprets_after_reported_error_witness :
  written (parse_program ["var"; "x"; "="; ";"; "var"; "y"; "="; "true"])
    = ["[line 1] Error : Expect expression."]
  /\ interpret_calls
       (events (run tokenize parse_program interpret inspect repl_argv
                  "var x = ; var y = true" fresh))
     = [(interpreter fresh, [VarDeclaration "y" (Literal (Boolean true))])]
  /\ interpreter (engine (run tokenize parse_program interpret inspect repl_argv
                            "var x = ; var y = true" fresh))
     = fst (interpret (interpreter fresh) [VarDeclaration "y" (Literal (Boolean true))]).
Proof.
  split; [reflexivity|].
  apply (run_interprets_after_reported_error _ _ _ tokenize parse_program interpret inspect
           repl_argv fresh "var x = ; var y = true"
           ["var"; "x"; "="; ";"; "var"; "y"; "="; "true"]
           [VarDeclaration "y" (Literal (Boolean true))]);
    reflexivity.
Defined.

(** After that line the global environment binds [y]. *)
Example reported_error_then_declaration :
  declared "y"
    (interpreter (engine (run tokenize parse_program interpret inspect repl_argv
                            "var x = ; var y = true" fresh))).
Proof. exists (Boolean true). reflexivity. Qed.

(** The line of an em space, the word [quit] and a space. *)
Lemma is_exit_command_iff_witness :
  is_exit_command
    (string_of_list_ascii (map ascii_of_nat [226; 128; 131]) +:+ "quit" +:+ " ") = true.
Proof.
  apply is_exit_command_iff.
  exists (string_of_list_ascii (map ascii_of_nat [226; 128; 131])), " ".
  split; [|split].
  - exists [map ascii_of_nat [226; 128; 131]]. split; [|reflexivity].
    constructor; [|constructor]. vm_compute. tauto.
  - exists [map ascii_of_nat [32]]. split; [|reflexivity].
    constructor; [|constructor]. vm_compute. tauto.
  - right. reflexivity.
Defined.

End OnSample.

(** ** The properties on an interpreter that throws values as they are *)

Section ThrownOnSample.

Import Any.

Local Abbreviation thrown_run_try :=
  (Any.run_try sample_tokenize sample_parse sample_interpret Sample.inspect Sample.repl_argv).
Local Abbreviation thrown_run :=
  (Any.run sample_tokenize sample_parse sample_interpret Sample.inspect Sample.repl_argv).
Local Abbreviation thrown_main :=
  (Any.main sample_tokenize sample_parse sample_interpret Sample.newInterpreter Sample.inspect
     sample_readFileSync).
Local Abbreviation error_main :=
  (Any.main (fun source => lift (Sample.tokenize source))
     (fun tokens => lift (Sample.parse tokens)) (lift_interpret Sample.interpret)
     Sample.newInterpreter Sample.inspect Sample.readFileSync).
Local Abbreviation error_runPrompt :=
  (Any.runPrompt (fun source => lift (Sample.tokenize source))
     (fun tokens => lift (Sample.parse tokens)) (lift_interpret Sample.interpret)
     Sample.inspect Sample.repl_argv).
Local Abbreviation fresh := (Any.new_MiniJSEngine Sample.newInterpreter).

(** C6, as stated, fails: the line [throw null] makes the interpreter
    throw [null]; the [catch] block of [run] cannot read its message,
    and the [TypeError] of that reading reaches the caller of [run]. *)
Lemma run_never_propagates_fails :
  ~ Any.run_never_propagates sample_tokenize sample_parse sample_interpret Sample.inspect
      Sample.repl_argv.
Proof.
  intros Hclaim. specialize (Hclaim fresh "throw null").
  vm_compute in Hclaim. discriminate Hclaim.
Qed.

Example thrown_null_reaches_caller :
  outcome (thrown_run_try "throw null" fresh) = Throw (Unreadable TypeError_of_null)
  /\ outcome (thrown_run "throw null" fresh) = Throw TypeError_of_null
  /\ reported (events (thrown_run "throw null" fresh)) = []
  /\ hadError (engine (thrown_run "throw null" fresh)) = false.
Proof. by vm_compute. Qed.

(** The three ways out of [run] on three lines: [y] reads a name nobody
    declared, [throw null] throws a value with no message, [true] is
    evaluated. *)
Lemma any_run_propagates_only_unreadable_witness :
  (outcome (thrown_run "y" fresh) = Normal tt
   /\ reported (events (thrown_run "y" fresh)) = ["Error: Undefined variable 'y'."]
   /\ hadError (engine (thrown_run "y" fresh)) = true)
  /\ (outcome (thrown_run "throw null" fresh) = Throw TypeError_of_null
      /\ reported (events (thrown_run "throw null" fresh)) = []
      /\ hadError (engine (thrown_run "throw null" fresh)) = hadError fresh)
  /\ (outcome (thrown_run "true" fresh) = Normal tt
      /\ reported (events (thrown_run "true" fresh)) = []).
Proof.
  split; [|split].
  - apply (proj1 (any_run_propagates_only_unreadable _ _ _ sample_tokenize sample_parse
                    sample_interpret Sample.inspect Sample.repl_argv fresh "y")).
    vm_compute. reflexivity.
  - apply (proj1 (proj2 (any_run_propagates_only_unreadable _ _ _ sample_tokenize sample_parse
                           sample_interpret Sample.inspect Sample.repl_argv fresh
                           "throw null"))).
    vm_compute. reflexivity.
  - apply (proj2 (proj2 (any_run_propagates_only_unreadable _ _ _ sample_tokenize sample_parse
                           sample_interpret Sample.inspect Sample.repl_argv fresh "true"))).
    intros error. vm_compute. discriminate.
Defined.

(** C8, as stated, fails twice: the exception of the line [throw null] is
    caught by the [catch] block of [run] and [hadError] stays down; and
    the constructor and the line listener do assign [hadRuntimeError]. *)
Lemma every_caught_exception_raises_hadError_fails :
  ~ Any.every_caught_exception_raises_hadError sample_tokenize sample_parse sample_interpret
      Sample.inspect Sample.repl_argv
  /\ ~ Any.nothing_assigns_hadRuntimeError sample_tokenize sample_parse sample_interpret
         Sample.newInterpreter Sample.inspect sample_readFileSync Sample.repl_argv.
Proof.
  split.
  - intros Hclaim.
    specialize (Hclaim fresh "throw null" (Unreadable TypeError_of_null) eq_refl).
    vm_compute in Hclaim. discriminate Hclaim.
  - intros Hclaim. specialize (Hclaim ["true"]).
    vm_compute in Hclaim. discriminate Hclaim.
Qed.

Example assignments_of_a_session :
  assigned_hadRuntimeError (events (thrown_main Sample.repl_argv ["true"; "y"]))
    = [false; false; false].
Proof. by vm_compute. Qed.

(** The line [y]: the exception is caught, its message read, and
    [hadError] raised. *)
Lemma any_hadRuntimeError_stays_down_witness :
  outcome (thrown_run_try "y" fresh) = Throw (Readable "Undefined variable 'y'.")
  /\ hadError (engine (thrown_run "y" fresh)) = true.
Proof.
  split; [by vm_compute|].
  apply (proj1 (any_hadRuntimeError_stays_down _ _ _ sample_tokenize sample_parse
                  sample_interpret Sample.newInterpreter Sample.inspect sample_readFileSync
                  Sample.repl_argv) fresh "y" "Undefined variable 'y'.").
  vm_compute. reflexivity.
Defined.


(** A session in which a line throws [null]: the exception leaves the
    line listener, the later line is not run, [Goodbye!] is not written
    and the process ends with code 1. *)
Example thrown_null_ends_the_session :
  outcome (thrown_main Sample.repl_argv ["throw null"; "true"]) = Throw TypeError_of_null
  /\ exit_code (thrown_main Sample.repl_argv ["throw null"; "true"]) = 1%Z
  /\ ~ In (ConsoleLog "Goodbye!") (events (thrown_main Sample.repl_argv ["throw null"; "true"])).
Proof.
  split_and!; [by vm_compute..|]. vm_compute. intros Hin.
  repeat (destruct Hin as [Hin|Hin]; [discriminate Hin|]). exact Hin.
Qed.

(** The REPL on stages that throw [Error] objects ends with code 0. *)
Lemma any_main_exit_code_witness :
  exit_code (error_main Sample.repl_argv ["y"; "true"]) = 0%Z.
Proof.
  apply (proj2 (any_main_exit_code _ _ _ _ _ _ Sample.newInterpreter Sample.inspect
                  Sample.readFileSync Sample.repl_argv ["y"; "true"])).
  - apply lifted_stages_readable.
  - vm_compute. lia.
Defined.

(** The exit codes of the file mode: 65 for the script [y], whose
    exception has a message, 1 for the script [throw null], and 1 for a
    script that is not there. *)
Example file_mode_exit_codes :
  exit_code (thrown_main Sample.file_argv []) = 65%Z
  /\ exit_code (thrown_main null_argv []) = 1%Z
  /\ exit_code (thrown_main ["node"; "src/index.js"; "nothing.js"] []) = 1%Z
  /\ reported (events (thrown_main null_argv []))
     = ["Error reading file: Cannot read properties of null (reading 'message')"].
Proof. by vm_compute. Qed.

End ThrownOnSample.
